(** * no-design-foundry-be: the font processing pipeline of [app.py]

    A shallow embedding of [process_font] and of the values it works on,
    followed by the properties of the pipeline: glyph selection, component
    closure, minimal-font assembly, filter dispatch, renaming and the
    response.

    Conventions.
    - A Python [str] is a list of Unicode code points ([ustr]); [ord] is the
      identity on them.  Strings that the program only compares or copies
      (glyph names, table tags, form keys, suffixes, base64 text) are Rocq
      [string]s.
    - A Python [dict] is an association list in insertion order with
      Python's update rule ([Dict.set]).
    - [None] where a glyph name is expected is [None : option string].
    - Exceptions and calls that leave [app.py] are explicit: a computation
      takes the log of calls made so far and returns a result or an
      exception together with the extended log. *)

From Stdlib Require Import List Strings.String Strings.Ascii Strings.Byte ZArith NArith Bool Lia Arith.
Import ListNotations.
Open Scope string_scope.
Open Scope list_scope.
Open Scope Z_scope.

(** ** Decidable equality, as Python's [==] on hashable keys *)

Class EqDec (A : Type) := eq_dec : forall x y : A, {x = y} + {x <> y}.

#[export] Instance EqDec_Z : EqDec Z := Z.eq_dec.
#[export] Instance EqDec_string : EqDec string := string_dec.
#[export] Instance EqDec_option {A} `{EqDec A} : EqDec (option A).
Proof. intros [x|] [y|]; try (right; discriminate); [|left; reflexivity].
  destruct (eq_dec x y); [left; congruence | right; congruence]. Defined.
#[export] Instance EqDec_prod {A B} `{EqDec A} `{EqDec B} : EqDec (A * B).
Proof. intros [a b] [a' b']. destruct (eq_dec a a'), (eq_dec b b');
  [left; congruence | right; congruence ..]. Defined.

Definition eqb {A} `{EqDec A} (x y : A) : bool :=
  if eq_dec x y then true else false.

(** ** Python dictionaries *)

Module Dict.
Section Dict.
Context {K V : Type} `{EqDec K}.

Definition t := list (K * V).

(** [d.get(k, None)] *)
Fixpoint get (d : t) (k : K) : option V :=
    match d with
    | [] => None
    | (k', v) :: d' => if eq_dec k k' then Some v else get d' k
    end.

(** [d[k] = v]: an existing key keeps its place and takes the new value, a
    new key goes to the end. *)
Fixpoint set (d : t) (k : K) (v : V) : t :=
    match d with
    | [] => [(k, v)]
    | (k', v') :: d' =>
        if eq_dec k k' then (k', v) :: d' else (k', v') :: set d' k v
    end.

(** [for k, v in items: d[k] = v] *)
Definition update (d : t) (items : list (K * V)) : t :=
    fold_left (fun acc kv => set acc (fst kv) (snd kv)) items d.

Definition keys (d : t) : list K := map fst d.

(** [k in d] *)
Definition mem (d : t) (k : K) : bool :=
    match get d k with Some _ => true | None => false end.
End Dict.
Arguments t : clear implicits.
End Dict.

(** ** Strings *)

(** A Python [str]: its code points. *)
Definition ustr := list Z.

(** An ASCII literal as a Python [str]. *)
Definition ustr_of (s : string) : ustr :=
  map (fun a => Z.of_N (N_of_ascii a)) (list_ascii_of_string s).

(** [sep.join(parts)] for one-character parts. *)
Fixpoint join_chars (sep : ustr) (parts : list Z) : ustr :=
  match parts with
  | [] => []
  | [c] => [c]
  | c :: rest => c :: sep ++ join_chars sep rest
  end.

(** [set(s)]: the distinct characters of [s].  Python leaves the iteration
    order of a set open; the order chosen here is one of them, and no
    property below depends on it. *)
Definition py_set (s : ustr) : list Z := nodup Z.eq_dec s.

(** ** [base64.b64encode(...).decode('ascii')]

    The standard alphabet with padding: each group of three bytes is a
    24-bit word read as four 6-bit digits; a last group of one or two bytes
    is filled with zero bits and closed with "=". *)

Module Base64.
#[local] Open Scope N_scope.

Definition alphabet : string :=
  "ABCDEFGHIJKLMNOPQRSTUVWXYZabcdefghijklmnopqrstuvwxyz0123456789+/".

(** The character of a 6-bit digit. *)
Definition digit (n : N) : ascii :=
  match String.get (N.to_nat n) alphabet with
  | Some c => c
  | None => "="%char
  end.

(** The character of the [i]-th 6-bit digit of a word, from the right. *)
Definition sextet (word : N) (i : N) : ascii :=
  digit ((word / 64 ^ i) mod 64).

(** Three bytes as one 24-bit word. *)
Definition pack (a b c : byte) : N :=
  Byte.to_N a * 65536 + Byte.to_N b * 256 + Byte.to_N c.

Fixpoint b64encode (bs : list byte) : string :=
  match bs with
  | [] => EmptyString
  | [a] =>
      let w := pack a x00 x00 in
      String (sextet w 3) (String (sextet w 2) "==")
  | [a; b] =>
      let w := pack a b x00 in
      String (sextet w 3) (String (sextet w 2) (String (sextet w 1) "="))
  | a :: b :: c :: rest =>
      let w := pack a b c in
      String (sextet w 3) (String (sextet w 2)
        (String (sextet w 1) (String (sextet w 0) (b64encode rest))))
  end.

(** The reading back of a base64 text, to state that encoding loses
    nothing. *)
Fixpoint index_of (c : ascii) (s : string) (i : N) : option N :=
  match s with
  | EmptyString => None
  | String c' s' => if Ascii.eqb c c' then Some i else index_of c s' (i + 1)
  end.

Definition value (c : ascii) : option N := index_of c alphabet 0.

Definition bytes3 (w : N) : option (list byte) :=
  match Byte.of_N (w / 65536), Byte.of_N ((w / 256) mod 256),
        Byte.of_N (w mod 256) with
  | Some a, Some b, Some c => Some [a; b; c]
  | _, _, _ => None
  end.

Fixpoint b64decode (s : string) : option (list byte) :=
  match s with
  | EmptyString => Some []
  | String c1 (String c2 (String c3 (String c4 rest))) =>
      match value c1, value c2 with
      | Some v1, Some v2 =>
          if Ascii.eqb c4 "=" then
            match rest with
            | EmptyString =>
                if Ascii.eqb c3 "=" then
                  option_map (firstn 1) (bytes3 ((v1 * 64 + v2) * 4096))
                else
                  match value c3 with
                  | Some v3 =>
                      option_map (firstn 2)
                                 (bytes3 (((v1 * 64 + v2) * 64 + v3) * 64))
                  | None => None
                  end
            | _ => None
            end
          else
            match value c3, value c4, b64decode rest with
            | Some v3, Some v4, Some tail =>
                option_map (fun l => l ++ tail)
                           (bytes3 (((v1 * 64 + v2) * 64 + v3) * 64 + v4))
            | _, _, _ => None
            end
      | _, _ => None
      end
  | _ => None
  end.

End Base64.

(** ** CodepointRangeFilter: [ranges] and [is_in_ranges] *)

Definition ranges : list (Z * Z) := [(32, 126)].

Fixpoint is_in_ranges_from (rs : list (Z * Z)) (code_point : Z) : bool :=
  match rs with
  | [] => false
  | (start, stop) :: rs' =>
      if (start <=? code_point) && (code_point <=? stop) then true
      else is_in_ranges_from rs' code_point
  end.

Definition is_in_ranges (code_point : Z) : bool :=
  is_in_ranges_from ranges code_point.

(** ** [suffix_name_map] *)

Definition suffix_name_map : Dict.t string (list string) :=
  [ ("rotorizer", ["Rotorized Underlay"; "Rotorized Overlay"]);
    ("rasterizer", ["Rasterized"]);
    ("extruder", ["Extruded"]) ].


(** ** The values of a request *)

(** A name in [glyph_names_to_process]: a glyph name, or Python's [None]
    where [cmap.get] found nothing. *)
Definition glyph_name := option string.

(** An uploaded file (werkzeug's [FileStorage]); it is falsy when it has no
    file name. *)
Record FileStorage := {
  fs_filename : string;
  fs_stream : list byte
}.

(** flask's [request]: [request.files] and [request.form]; [.get] takes the
    first value stored under a key. *)
Record Request := {
  files : list (string * FileStorage);
  form : list (string * ustr)
}.

(** The part of a parsed [fontTools.ttLib.TTFont] that [process_font]
    reads.  The tables [head], [name] and [hmtx] and a Unicode cmap are
    taken to be present, and to be decoded when the font is opened: a font
    that cannot be read fails at [parse_font]. *)
Record TTFont := {
  tt_tables : list string;               (* the tags for which [tag in tt_font] *)
  tt_best_cmap : Dict.t Z string;        (* [getBestCmap()] *)
  tt_unitsPerEm : Z;                     (* [tt_font["head"].unitsPerEm] *)
  tt_familyName : option string;         (* [getBestFamilyName()] *)
  tt_subFamilyName : option string;      (* [getBestSubFamilyName()] *)
  tt_hmtx : Dict.t string (Z * Z)        (* [tt_font["hmtx"].metrics] *)
}.

(** One command sent to a glyph's pen. *)
Inductive pen_command :=
| MoveTo (p : Z * Z)
| LineTo (p : Z * Z)
| CurveTo (p1 p2 p3 : Z * Z)
| QCurveTo (ps : list (Z * Z))
| ClosePath
| EndPath
| AddComponent (base : string) (dx dy : Z).

(** A [defcon] glyph as [process_font] leaves it: [None] in [g_width] is a
    width never assigned, an empty [g_outline] a pen that received
    nothing. *)
Record Glyph := {
  g_unicode : option Z;
  g_width : option Z;
  g_outline : list pen_command
}.

Definition kerning_pair := (string * string)%type.

(** A [defcon.Font]: [ufo.info], the glyphs by name, [ufo.kerning]. *)
Record Font := {
  unitsPerEm : option Z;
  familyName : option string;
  styleName : option string;
  glyphs : Dict.t glyph_name Glyph;
  kerning : Dict.t kerning_pair Z
}.

(** What a filter returns: a [defcon.Font] or a [TTFont]. *)
Inductive OutFont :=
| Ufo (font : Font)
| Ttf (font : TTFont).

(** The JSON body of a 200 response. *)
Inductive Response :=
| DownloadResponse (fonts : list string)
| PreviewResponse (fonts : list string) (warnings : list ustr)
                  (preview_string : ustr).

Definition response_fonts (r : Response) : list string :=
  match r with
  | DownloadResponse fonts => fonts
  | PreviewResponse fonts _ _ => fonts
  end.

(** ** Exceptions and the log of outside calls *)

Inductive exn :=
| NotFound (description : string)        (* [abort(404, ...)] *)
| AssertionError (message : string)
| TypeError (message : string)
| KeyError (key : glyph_name)
| IndexError
| ValueError
| Failure (origin : string).             (* raised inside a collaborator *)

Inductive event :=
| EvParse (font_file : list byte)
| EvComponents (names : list glyph_name)
| EvExtract (table : string) (name : glyph_name)
| EvRasterize (ufo : Font) (names : list glyph_name) (resolution : Z)
| EvRotorize (ufo : Font) (names : list glyph_name) (depth : Z)
| EvExtractInfo (ufo : Font)
| EvKerning (font_file : list byte) (widths : Dict.t string Z)
            (content : option ustr) (cmap : Dict.t Z string)
| EvExtrude (ufo : Font) (names : list glyph_name) (angle : Z)
| EvRename (f : nat) (font : OutFont) (suffix : string)
| EvEncode (font : OutFont)
| EvCollect
| EvSave (font : OutFont) (path : string).

Definition result (A : Type) := (exn + A)%type.

(** A step of the request handler: it extends the log and returns or
    raises. *)
Definition M (A : Type) := list event -> result A * list event.

Definition ret {A} (x : A) : M A := fun log => (inr x, log).

Definition raise {A} (e : exn) : M A := fun log => (inl e, log).

Definition bind {A B} (m : M A) (k : A -> M B) : M B :=
  fun log =>
    match m log with
    | (inr x, log') => k x log'
    | (inl e, log') => (inl e, log')
    end.

(** A call to a collaborator: logged when made, whatever comes back. *)
Definition call {A} (ev : event) (r : result A) : M A :=
  fun log => (r, log ++ [ev]).

Definition run {A} (m : M A) : result A * list event := m [].

Declare Scope pipeline_scope.
Delimit Scope pipeline_scope with pipeline.
Notation "x <- m ;; k" := (bind m (fun x => k))
  (at level 61, m at next level, right associativity) : pipeline_scope.
Notation "m ;;; k" := (bind m (fun _ => k))
  (at level 61, right associativity) : pipeline_scope.
Open Scope pipeline_scope.

(** [for x in xs: acc = body(x, acc)], stopping at the first exception. *)
Fixpoint for_each {A S} (xs : list A) (body : A -> S -> M S) (acc : S) : M S :=
  match xs with
  | [] => ret acc
  | x :: xs' => acc' <- body x acc ;; for_each xs' body acc'
  end.

(** ** The collaborators

    Everything [process_font] calls outside [app.py]: fontTools, the
    helpers of [tools.generic] (not among the sources), [extractor], the
    three filters and [save].  Each is a parameter and each may raise.
    None of them is taken to change the list of glyph names it is given. *)

Record Collaborators := {
  (* [TTFont(BytesIO(font_file))] with the tables read *)
  parse_font : list byte -> result TTFont;
  (* Python's [int] on a form value *)
  py_int : ustr -> result Z;
  (* [tools.generic] *)
  get_components_in_subsetted_text :
    TTFont -> list glyph_name -> result (list string);
  extractCFFGlyph : TTFont -> glyph_name -> result (list pen_command);
  extractCFF2Glyph : TTFont -> glyph_name -> result (list pen_command);
  extractGlyfGlyph : TTFont -> glyph_name -> result (list pen_command);
  extract_kerning_hb :
    list byte -> Dict.t string Z -> option ustr -> Dict.t Z string ->
    result (Dict.t kerning_pair Z);
  rename_name_ufo : Font -> string -> result Font;
  rename_name_ttfont : TTFont -> string -> result TTFont;
  (* the bytes [fonts_to_base64] encodes for one font *)
  font_to_bytes : OutFont -> result (list byte);
  (* [extractor] *)
  extractOpenTypeInfo : TTFont -> Font -> result Font;
  (* the three filters *)
  rasterize :
    Font -> TTFont -> list byte -> list glyph_name -> Z -> result OutFont;
  rotorize :
    Font -> list glyph_name -> Dict.t string Z -> TTFont -> Z ->
    result (list OutFont);
  extrude_variable : Font -> list glyph_name -> Z -> result OutFont;
  (* [font.save(path)] *)
  save : OutFont -> string -> result unit
}.

(** ** [process_font] *)

(** [x in xs] on strings *)
Definition in_list (x : string) (xs : list string) : bool :=
  existsb (String.eqb x) xs.

(** [name in names] on glyph names *)
Definition in_names (name : glyph_name) (names : list glyph_name) : bool :=
  existsb (eqb name) names.

(** Truthiness of a [str] *)
Definition nonempty {A} (s : list A) : bool :=
  match s with [] => false | _ :: _ => true end.

(** Truthiness of what [request.files.get] returns *)
Definition truthy (upload : option FileStorage) : bool :=
  match upload with
  | Some fs => negb (String.eqb (fs_filename fs) "")
  | None => false
  end.

(** [{v: k for k, v in cmap.items()}] (line 79) *)
Definition reverse_cmap (cmap : Dict.t Z string) : Dict.t string Z :=
  fold_left (fun acc kv => Dict.set acc (snd kv) (fst kv)) cmap [].

(** The download loop (lines 82-84) *)
Definition download_selection (cmap_reversed : Dict.t string Z)
  : list glyph_name :=
  fold_left
    (fun acc item =>
       if is_in_ranges (snd item) then acc ++ [Some (fst item)] else acc)
    cmap_reversed [].

(** The preview comprehension (lines 86-88) *)
Definition preview_selection (cmap : Dict.t Z string) (preview_string : ustr)
  : list glyph_name :=
  map (fun char => Dict.get cmap char) (py_set preview_string).

(** Lines 81-88: the initial [glyph_names_to_process]. *)
Definition initial_selection (process_for_download : bool)
    (cmap : Dict.t Z string) (preview_string : option ustr)
  : result (list glyph_name) :=
  if process_for_download then
    inr (download_selection (reverse_cmap cmap))
  else
    match preview_string with
    | Some s => inr (preview_selection cmap s)
    | None => inl (TypeError "'NoneType' object is not iterable")
    end.

(** Lines 168-172 *)
Definition missing_glyphs (cmap : Dict.t Z string) (preview_string : ustr)
  : list Z :=
  filter (fun character =>
            match Dict.get cmap character with None => true | Some _ => false end)
         preview_string.

(** Lines 173-176 *)
Definition warnings_for (missing : list Z) : list ustr :=
  if nonempty missing then
    [ustr_of "Your font is missing these characters: "
       ++ join_chars (ustr_of ", ") missing]
  else [].

(** Lines 182-184 *)
Definition echoed_preview_string (preview_string : ustr) (missing : list Z)
  : ustr :=
  filter (fun char => negb (existsb (Z.eqb char) missing)) preview_string.

(** Line 91: [glyph_names_to_process.extend(components)] *)
Definition closed_selection (selected : list glyph_name)
    (components : list string) : list glyph_name :=
  selected ++ map Some components.

Definition has_table (tt_font : TTFont) (tag : string) : bool :=
  in_list tag (tt_tables tt_font).

(** [ufo.newGlyph(name)] followed by the assignments to the new glyph *)
Definition put_glyph (ufo : Font) (name : glyph_name) (g : Glyph) : Font :=
  {| unitsPerEm := unitsPerEm ufo;
     familyName := familyName ufo;
     styleName := styleName ufo;
     glyphs := Dict.set (glyphs ufo) name g;
     kerning := kerning ufo |}.

Definition with_kerning (ufo : Font) (k : Dict.t kerning_pair Z) : Font :=
  {| unitsPerEm := unitsPerEm ufo;
     familyName := familyName ufo;
     styleName := styleName ufo;
     glyphs := glyphs ufo;
     kerning := k |}.

(** [cmap_reversed.get(glyph_name, None)] *)
Definition unicode_of (cmap_reversed : Dict.t string Z) (name : glyph_name)
  : option Z :=
  match name with
  | Some g => Dict.get cmap_reversed g
  | None => None
  end.

(** [tt_font["hmtx"].metrics[glyph_name][0]] *)
Definition advance_width (tt_font : TTFont) (name : glyph_name) : result Z :=
  match name with
  | Some g =>
      match Dict.get (tt_hmtx tt_font) g with
      | Some metric => inr (fst metric)
      | None => inl (KeyError name)
      end
  | None => inl (KeyError None)
  end.

(** Line 135 *)
Definition restricted_widths (tt_font : TTFont) (names : list glyph_name)
  : Dict.t string Z :=
  Dict.update []
    (map (fun kv => (fst kv, fst (snd kv)))
         (filter (fun kv => in_names (Some (fst kv)) names) (tt_hmtx tt_font))).

(** The upload of a request, as line 71 reads it. *)
Definition uploaded_bytes (request : Request) : list byte :=
  match Dict.get (files request) "font_file" with
  | Some fs => fs_stream fs
  | None => []
  end.

Section Pipeline.
Variable env : Collaborators.

Definition lift {A} (r : result A) : M A := fun log => (r, log).

(** Lines 105-110 *)
Definition extract_outline (tt_font : TTFont) (name : glyph_name)
  : M (list pen_command) :=
  if has_table tt_font "CFF " then
    call (EvExtract "CFF " name) (extractCFFGlyph env tt_font name)
  else if has_table tt_font "CFF2" then
    call (EvExtract "CFF2" name) (extractCFF2Glyph env tt_font name)
  else if has_table tt_font "glyf" then
    call (EvExtract "glyf" name) (extractGlyfGlyph env tt_font name)
  else ret [].

(** The body of the loop of lines 99-110 *)
Definition build_glyph (filter_identifier : string) (tt_font : TTFont)
    (cmap_reversed : Dict.t string Z) (name : glyph_name) (ufo : Font)
  : M Font :=
  let unicode := unicode_of cmap_reversed name in
  if in_list filter_identifier ["extruder"] then
    width <- lift (advance_width tt_font name) ;;
    outline <- extract_outline tt_font name ;;
    ret (put_glyph ufo name
           {| g_unicode := unicode; g_width := Some width;
              g_outline := outline |})
  else
    ret (put_glyph ufo name
           {| g_unicode := unicode; g_width := None; g_outline := [] |}).

(** Lines 93-110 *)
Definition assemble (filter_identifier : string) (tt_font : TTFont)
    (cmap_reversed : Dict.t string Z) (process_for_download : bool)
    (names : list glyph_name) : M Font :=
  let ufo :=
    {| unitsPerEm := Some (tt_unitsPerEm tt_font);
       familyName :=
         if process_for_download then tt_familyName tt_font else None;
       styleName :=
         if process_for_download then tt_subFamilyName tt_font else None;
       glyphs := [];
       kerning := [] |} in
  for_each names (build_glyph filter_identifier tt_font cmap_reversed) ufo.

(** [int(request.form.get(key, default))] *)
Definition form_int (request : Request) (key : string) (default : Z) : M Z :=
  match Dict.get (form request) key with
  | Some value => lift (py_int env value)
  | None => ret default
  end.

(** Lines 112-145 *)
Definition dispatch (filter_identifier : string) (request : Request)
    (font_file : list byte) (tt_font : TTFont) (cmap : Dict.t Z string)
    (cmap_reversed : Dict.t string Z) (preview_string : option ustr)
    (names : list glyph_name) (ufo : Font) : M (list OutFont) :=
  if String.eqb filter_identifier "rasterizer" then
    resolution <- form_int request "resolution" 30 ;;
    font <- call (EvRasterize ufo names resolution)
                 (rasterize env ufo tt_font font_file names resolution) ;;
    ret [font]
  else if String.eqb filter_identifier "rotorizer" then
    depth <- form_int request "depth" 200 ;;
    call (EvRotorize ufo names depth)
         (rotorize env ufo names cmap_reversed tt_font depth)
  else if String.eqb filter_identifier "extruder" then
    angle <- form_int request "angle" 330 ;;
    ufo1 <- call (EvExtractInfo ufo) (extractOpenTypeInfo env tt_font ufo) ;;
    let widths := restricted_widths tt_font names in
    extracted_kerning <-
      call (EvKerning font_file widths preview_string cmap)
           (extract_kerning_hb env font_file widths preview_string cmap) ;;
    let ufo2 := with_kerning ufo1 (Dict.update (kerning ufo1) extracted_kerning) in
    font <- call (EvExtrude ufo2 names angle)
                 (extrude_variable env ufo2 names angle) ;;
    ret [font]
  else
    (* [output] is unbound; line 60 excludes this case *)
    raise (Failure "UnboundLocalError").

(** Lines 147-153.  The fonts of [output] are taken to be distinct objects:
    a rename reaches one entry. *)
Fixpoint rename_outputs (suffixes : list string) (f : nat)
    (output : list OutFont) : M (list OutFont) :=
  match output with
  | [] => ret []
  | font :: rest =>
      match nth_error suffixes f with
      | None => raise IndexError
      | Some suffix =>
          font' <-
            (if negb (String.eqb suffix "") then
               match font with
               | Ufo u =>
                   u' <- call (EvRename f font suffix)
                              (rename_name_ufo env u suffix) ;;
                   ret (Ufo u')
               | Ttf t =>
                   t' <- call (EvRename f font suffix)
                              (rename_name_ttfont env t suffix) ;;
                   ret (Ttf t')
               end
             else ret font) ;;
          rest' <- rename_outputs suffixes (S f) rest ;;
          ret (font' :: rest')
      end
  end.

(** Modelled from the spec: [tools.generic.fonts_to_base64] is not among the
    sources.  The response assembler "serializes output font(s) to a
    transport-safe encoding": one base64 string per output font, in order. *)
Fixpoint fonts_to_base64 (output : list OutFont) : M (list string) :=
  match output with
  | [] => ret []
  | font :: rest =>
      bytes <- call (EvEncode font) (font_to_bytes env font) ;;
      rest' <- fonts_to_base64 rest ;;
      ret (Base64.b64encode bytes :: rest')
  end.

(** Lines 77-186: what [process_font] does once the upload is parsed. *)
Definition process_parsed (filter_identifier : string) (request : Request)
    (process_for_download : bool) (tt_font : TTFont) : M Response :=
  let preview_string := Dict.get (form request) "preview_string" in
  let font_file := uploaded_bytes request in
  let cmap := tt_best_cmap tt_font in
  let cmap_reversed := reverse_cmap cmap in
  selected <- lift (initial_selection process_for_download cmap
                                      preview_string) ;;
  components <-
    call (EvComponents selected)
         (get_components_in_subsetted_text env tt_font selected) ;;
  let glyph_names_to_process := closed_selection selected components in
  ufo <- assemble filter_identifier tt_font cmap_reversed
                  process_for_download glyph_names_to_process ;;
  output <- dispatch filter_identifier request font_file tt_font cmap
                     cmap_reversed preview_string
                     glyph_names_to_process ufo ;;
  suffixes <-
    match Dict.get suffix_name_map filter_identifier with
    | Some suffixes => ret suffixes
    | None => raise (KeyError (Some filter_identifier))
    end ;;
  output <- rename_outputs suffixes 0 output ;;
  encoded <- fonts_to_base64 output ;;
  let response :=
    if in_list filter_identifier ["extruder"]
    then encoded ++ [Base64.b64encode font_file]
    else encoded in
  call EvCollect (inr tt) ;;;
  match output with
  | [] => raise IndexError
  | first :: _ => call (EvSave first "output.ttf") (save env first "output.ttf")
  end ;;;
  if process_for_download then ret (DownloadResponse response)
  else
    match preview_string with
    | None => raise (TypeError "'NoneType' object is not iterable")
    | Some s =>
        let missing := missing_glyphs cmap s in
        ret (PreviewResponse response (warnings_for missing)
                             (echoed_preview_string s missing))
    end.

(** Lines 67-69: the preview string is present, not empty and longer than
    30 characters. *)
Definition too_long (preview_string : option ustr) : bool :=
  match preview_string with
  | Some s => nonempty s && (30 <? Z.of_nat (List.length s))
  | None => false
  end.

(** Lines 59-186 *)
Definition process_font (filter_identifier : string) (request : Request)
    (process_for_download : bool) : M Response :=
  if negb (in_list filter_identifier ["rasterizer"; "rotorizer"; "extruder"])
  then raise (NotFound "Filter not found")
  else if negb (truthy (Dict.get (files request) "font_file"))
  then raise (AssertionError "Font file is required")
  else if too_long (Dict.get (form request) "preview_string")
  then raise (AssertionError "Preview string is too long")
  else
    let font_file := uploaded_bytes request in
    tt_font <- call (EvParse font_file) (parse_font env font_file) ;;
    process_parsed filter_identifier request process_for_download tt_font.

End Pipeline.

(** ** Reading a log *)

(** The glyph names each filter call received. *)
Definition filter_names (log : list event) : list (list glyph_name) :=
  flat_map (fun ev =>
              match ev with
              | EvRasterize _ names _ => [names]
              | EvRotorize _ names _ => [names]
              | EvExtrude _ names _ => [names]
              | _ => []
              end) log.

(** The paths written by [font.save]. *)
Definition saved_paths (log : list event) : list string :=
  flat_map (fun ev => match ev with EvSave _ path => [path] | _ => [] end) log.

Definition is_extract (ev : event) : bool :=
  match ev with EvExtract _ _ => true | _ => false end.

Definition is_parse (ev : event) : bool :=
  match ev with EvParse _ => true | _ => false end.

(** [renamed env font suffix font']: [font'] is [font] after the rename that
    fits its representation. *)
Definition renamed (env : Collaborators) (font : OutFont) (suffix : string)
    (font' : OutFont) : Prop :=
  match font, font' with
  | Ufo u, Ufo u' => rename_name_ufo env u suffix = inr u'
  | Ttf t, Ttf t' => rename_name_ttfont env t suffix = inr t'
  | _, _ => False
  end.

(** [encodes env font s]: [s] is the base64 text of [font]'s bytes. *)
Definition encodes (env : Collaborators) (font : OutFont) (s : string) : Prop :=
  exists bytes, font_to_bytes env font = inr bytes /\ s = Base64.b64encode bytes.

(** A character with an entry in the forward character map. *)
Definition mapped (cmap : Dict.t Z string) (char : Z) : bool :=
  match Dict.get cmap char with Some _ => true | None => false end.

(** ** A small font and stand-ins for the collaborators

    Used to run the pipeline on concrete requests. *)

Module Demo.

Definition cmap : Dict.t Z string :=
  [ (32, "space"); (65, "A"); (66, "B"); (97, "a"); (160, "space");
    (193, "Aacute") ].

Definition font : TTFont :=
  {| tt_tables := ["cmap"; "glyf"; "head"; "hmtx"; "name"];
     tt_best_cmap := cmap;
     tt_unitsPerEm := 1000;
     tt_familyName := Some "Demo";
     tt_subFamilyName := Some "Regular";
     tt_hmtx :=
       [ (".notdef", (500, 50)); ("space", (250, 0)); ("A", (600, 10));
         ("B", (620, 60)); ("a", (520, 40)); ("Aacute", (600, 10));
         ("acutecomb", (0, -300)) ] |}.

Definition triangle : list pen_command :=
  [MoveTo (0, 0); LineTo (500, 0); LineTo (250, 700); ClosePath].

Definition outline_of (name : glyph_name) : result (list pen_command) :=
  match name with
  | Some "Aacute" => inr [AddComponent "A" 0 0; AddComponent "acutecomb" 300 0]
  | Some _ => inr triangle
  | None => inl (KeyError None)
  end.

Definition components_of (names : list glyph_name) : list string :=
  flat_map (fun name =>
              match name with
              | Some "Aacute" => ["A"; "acutecomb"]
              | _ => []
              end) names.

Fixpoint digits (s : ustr) (acc : Z) : result Z :=
  match s with
  | [] => inr acc
  | c :: s' =>
      if (48 <=? c) && (c <=? 57) then digits s' (10 * acc + (c - 48))
      else inl ValueError
  end.

Definition int (s : ustr) : result Z :=
  match s with
  | [] => inl ValueError
  | _ => digits s 0
  end.

Definition suffixed (name : option string) (suffix : string) : option string :=
  match name with
  | Some n => Some (n ++ " " ++ suffix)%string
  | None => Some suffix
  end.

Definition rename_ufo (u : Font) (suffix : string) : Font :=
  {| unitsPerEm := unitsPerEm u;
     familyName := suffixed (familyName u) suffix;
     styleName := styleName u;
     glyphs := glyphs u;
     kerning := kerning u |}.

Definition rename_ttfont (t : TTFont) (suffix : string) : TTFont :=
  {| tt_tables := tt_tables t;
     tt_best_cmap := tt_best_cmap t;
     tt_unitsPerEm := tt_unitsPerEm t;
     tt_familyName := suffixed (tt_familyName t) suffix;
     tt_subFamilyName := tt_subFamilyName t;
     tt_hmtx := tt_hmtx t |}.

Definition name_bytes (name : option string) : list byte :=
  match name with
  | Some n => list_byte_of_string n
  | None => []
  end.

Definition bytes_of (f : OutFont) : list byte :=
  match f with
  | Ufo u => name_bytes (familyName u)
  | Ttf t => name_bytes (tt_familyName t)
  end.

Definition env : Collaborators :=
  {| parse_font := fun _ => inr font;
     py_int := int;
     get_components_in_subsetted_text := fun _ names => inr (components_of names);
     extractCFFGlyph := fun _ name => outline_of name;
     extractCFF2Glyph := fun _ name => outline_of name;
     extractGlyfGlyph := fun _ name => outline_of name;
     extract_kerning_hb := fun _ _ _ _ => inr [(("A", "B"), -40)];
     rename_name_ufo := fun u suffix => inr (rename_ufo u suffix);
     rename_name_ttfont := fun t suffix => inr (rename_ttfont t suffix);
     font_to_bytes := fun f => inr (bytes_of f);
     extractOpenTypeInfo := fun _ ufo => inr ufo;
     rasterize := fun _ tt _ _ _ => inr (Ttf tt);
     rotorize := fun ufo _ _ tt _ => inr [Ufo ufo; Ttf tt];
     extrude_variable := fun ufo _ _ => inr (Ufo ufo);
     save := fun _ _ => inr tt |}.

Definition upload : FileStorage :=
  {| fs_filename := "demo.ttf"; fs_stream := [x00; x01; x00; x00] |}.

(** A request carrying the upload and a preview string. *)
Definition request (preview_string : ustr) : Request :=
  {| files := [("font_file", upload)];
     form := [("preview_string", preview_string)] |}.

(** A request with further form fields. *)
Definition request_with (preview_string : ustr) (fields : list (string * ustr))
  : Request :=
  {| files := [("font_file", upload)];
     form := ("preview_string", preview_string) :: fields |}.

(** The same request without the [preview_string] field. *)
Definition bare_request : Request :=
  {| files := [("font_file", upload)]; form := [] |}.

(** U+20AC, which [cmap] does not map *)
Definition euro : Z := 8364.

End Demo.

(** The extractor [process_font] picks for a font, and what it returns for
    a glyph: CFF before CFF2 before glyf, nothing when none is present. *)
Definition outline_source (env : Collaborators) (tt_font : TTFont)
    (name : glyph_name) : result (list pen_command) :=
  if has_table tt_font "CFF " then extractCFFGlyph env tt_font name
  else if has_table tt_font "CFF2" then extractCFF2Glyph env tt_font name
  else if has_table tt_font "glyf" then extractGlyfGlyph env tt_font name
  else inr [].

(** A glyph with its Unicode value and nothing else. *)
Definition bare_glyph (cmap_reversed : Dict.t string Z) (name : glyph_name)
  : Glyph :=
  {| g_unicode := unicode_of cmap_reversed name;
     g_width := None;
     g_outline := [] |}.

(** A glyph with its Unicode value, its advance width and its outline. *)
Definition full_glyph (env : Collaborators) (tt_font : TTFont)
    (cmap_reversed : Dict.t string Z) (name : glyph_name) (g : Glyph) : Prop :=
  exists width outline,
    advance_width tt_font name = inr width
    /\ outline_source env tt_font name = inr outline
    /\ g = {| g_unicode := unicode_of cmap_reversed name;
              g_width := Some width;
              g_outline := outline |}.

(** [renamed_all env suffixes f output output']: [output'] is [output] after
    the loop of lines 147-153 started at index [f]. *)
Fixpoint renamed_all (env : Collaborators) (suffixes : list string) (f : nat)
    (output output' : list OutFont) : Prop :=
  match output, output' with
  | [], [] => True
  | font :: rest, font' :: rest' =>
      (exists suffix,
          nth_error suffixes f = Some suffix
          /\ if String.eqb suffix "" then font' = font
             else renamed env font suffix font')
      /\ renamed_all env suffixes (S f) rest rest'
  | _, _ => False
  end.

(** ** Specifying steps

    [emits P Q m]: whatever [m] does, it only appends to the log, what it
    appends satisfies [P], and a value it returns satisfies [Q]. *)

Definition emits {A} (P : list event -> Prop) (Q : A -> Prop) (m : M A) : Prop :=
  forall log r log',
    m log = (r, log') ->
    exists added, log' = log ++ added /\ P added
                  /\ forall x, r = inr x -> Q x.

(** Properties of a log that hold piece by piece. *)
Class Pieces (P : list event -> Prop) : Prop := {
  pieces_nil : P [];
  pieces_app : forall a b, P a -> P b -> P (a ++ b)
}.

(** What the log shows of the glyph loop when the filter is not the
    extruder: no extractor is called, and the font given to the filter has,
    for each name, a glyph without width and without outline. *)
Definition without_outlines (ev : event) : Prop :=
  match ev with
  | EvExtract _ _ => False
  | EvRasterize ufo names _ | EvRotorize ufo names _ =>
      forall name, In name names ->
        exists g, Dict.get (glyphs ufo) name = Some g
                  /\ g_width g = None /\ g_outline g = []
  | _ => True
  end.

(** What the log shows of the glyph loop for the extruder: the font that
    leaves the loop has, for each name of the closed selection, a glyph
    with its advance width and the outline its extractor returned. *)
Definition with_outlines (env : Collaborators) (request : Request)
    (dl : bool) (ev : event) : Prop :=
  match ev with
  | EvExtractInfo ufo =>
      exists tt_font selected components,
        parse_font env (uploaded_bytes request) = inr tt_font
        /\ initial_selection dl (tt_best_cmap tt_font)
             (Dict.get (form request) "preview_string") = inr selected
        /\ get_components_in_subsetted_text env tt_font selected
           = inr components
        /\ forall name, In name (closed_selection selected components) ->
             exists g, Dict.get (glyphs ufo) name = Some g
                       /\ full_glyph env tt_font
                            (reverse_cmap (tt_best_cmap tt_font)) name g
  | _ => True
  end.

(** What the log shows of the extruder: every call of the filter comes
    right after the call of [extractOpenTypeInfo] on the font the glyph
    loop assembled and the kerning extraction, which was given the widths
    of the glyphs the filter receives and the preview string of the
    request; the font the filter receives is the one [extractOpenTypeInfo]
    returned, with the extracted pairs merged into its kerning. *)
Definition kerning_before_extrude (env : Collaborators) (request : Request)
    (dl : bool) (added : list event) : Prop :=
  forall before ufo names angle after,
    added = before ++ EvExtrude ufo names angle :: after ->
    exists earlier tt_font selected components ufo0 ufo1 extracted,
      let bytes := uploaded_bytes request in
      let content := Dict.get (form request) "preview_string" in
      let cmap := tt_best_cmap tt_font in
      let widths := restricted_widths tt_font names in
      parse_font env bytes = inr tt_font
      /\ initial_selection dl cmap content = inr selected
      /\ get_components_in_subsetted_text env tt_font selected
         = inr components
      /\ names = closed_selection selected components
      /\ (exists log0 log1,
            assemble env "extruder" tt_font (reverse_cmap cmap) dl names log0
            = (inr ufo0, log1))
      /\ before
         = earlier ++ [EvExtractInfo ufo0; EvKerning bytes widths content cmap]
      /\ extractOpenTypeInfo env tt_font ufo0 = inr ufo1
      /\ extract_kerning_hb env bytes widths content cmap = inr extracted
      /\ ufo = with_kerning ufo1 (Dict.update (kerning ufo1) extracted).

(** What the log shows of the glyph names: the closure helper is asked
    about the initial selection, and each filter receives the closed one. *)
Definition given_selection (env : Collaborators) (request : Request)
    (dl : bool) (ev : event) : Prop :=
  match ev with
  | EvComponents names =>
      exists tt_font,
        parse_font env (uploaded_bytes request) = inr tt_font
        /\ initial_selection dl (tt_best_cmap tt_font)
             (Dict.get (form request) "preview_string") = inr names
  | EvRasterize _ names _ | EvRotorize _ names _ | EvExtrude _ names _ =>
      exists tt_font selected components,
        parse_font env (uploaded_bytes request) = inr tt_font
        /\ initial_selection dl (tt_best_cmap tt_font)
             (Dict.get (form request) "preview_string") = inr selected
        /\ get_components_in_subsetted_text env tt_font selected
           = inr components
        /\ names = closed_selection selected components
  | _ => True
  end.

(** ** The two routes (lines 189-202)

    [filter_preview] and [filter_download] call [process_font] and collect
    once more before they return its value. *)

Section Routes.
Variable env : Collaborators.

Definition filter_preview (filter_identifier : string) (request : Request)
  : M Response :=
  return_value <- process_font env filter_identifier request false ;;
  call EvCollect (inr tt) ;;;
  ret return_value.

Definition filter_download (filter_identifier : string) (request : Request)
  : M Response :=
  return_value <- process_font env filter_identifier request true ;;
  call EvCollect (inr tt) ;;;
  ret return_value.

End Routes.

(** ** The order of the outside calls *)

(** The place of a call in [process_font], by the line that makes it. *)
Definition phase (ev : event) : nat :=
  match ev with
  | EvParse _ => 0
  | EvComponents _ => 1
  | EvExtract _ _ => 2
  | EvExtractInfo _ => 3
  | EvKerning _ _ _ _ => 4
  | EvRasterize _ _ _ | EvRotorize _ _ _ | EvExtrude _ _ _ => 5
  | EvRename _ _ _ => 6
  | EvEncode _ => 7
  | EvCollect => 8
  | EvSave _ _ => 9
  end.

(** The calls made in a loop. *)
Definition repeatable (ev : event) : bool :=
  match ev with
  | EvExtract _ _ | EvRename _ _ _ | EvEncode _ => true
  | _ => false
  end.

(** [later] may come after [earlier]: it belongs to a later place, or to
    the same loop. *)
Definition may_follow (earlier later : event) : Prop :=
  (phase earlier < phase later)%nat
  \/ (phase earlier = phase later /\ repeatable earlier = true).

Definition in_pipeline_order (log : list event) : Prop :=
  ForallOrdPairs may_follow log.

(** Calls in order, all of places [lo] to [hi]. *)
Definition within (lo hi : nat) (added : list event) : Prop :=
  in_pipeline_order added
  /\ Forall (fun ev => (lo <= phase ev <= hi)%nat) added.

(** The calls a filter identifier allows. *)
Definition right_filter (fid : string) (ev : event) : Prop :=
  match ev with
  | EvRasterize _ _ _ => fid = "rasterizer"
  | EvRotorize _ _ _ => fid = "rotorizer"
  | EvExtract _ _ | EvExtractInfo _ | EvKerning _ _ _ _ | EvExtrude _ _ _ =>
      fid = "extruder"
  | _ => True
  end.

(** [n] is what [int(request.form.get(key, default))] gives. *)
Definition form_value (env : Collaborators) (request : Request)
    (key : string) (default : Z) (n : Z) : Prop :=
  match Dict.get (form request) key with
  | Some value => py_int env value = inr n
  | None => n = default
  end.

(** The numeric parameter of a filter call comes from the form. *)
Definition parameter_from_form (env : Collaborators) (request : Request)
    (ev : event) : Prop :=
  match ev with
  | EvRasterize _ _ n => form_value env request "resolution" 30 n
  | EvRotorize _ _ n => form_value env request "depth" 200 n
  | EvExtrude _ _ n => form_value env request "angle" 330 n
  | _ => True
  end.

(** The font that leaves the glyph loop of a request. *)
Definition minimal_font (env : Collaborators) (request : Request) (dl : bool)
    (ufo : Font) : Prop :=
  exists tt_font selected components,
    parse_font env (uploaded_bytes request) = inr tt_font
    /\ initial_selection dl (tt_best_cmap tt_font)
         (Dict.get (form request) "preview_string") = inr selected
    /\ get_components_in_subsetted_text env tt_font selected = inr components
    /\ unitsPerEm ufo = Some (tt_unitsPerEm tt_font)
    /\ familyName ufo = (if dl then tt_familyName tt_font else None)
    /\ styleName ufo = (if dl then tt_subFamilyName tt_font else None)
    /\ kerning ufo = []
    /\ NoDup (Dict.keys (glyphs ufo))
    /\ (forall name,
          In name (Dict.keys (glyphs ufo))
          <-> In name (closed_selection selected components))
    /\ forall name g,
        Dict.get (glyphs ufo) name = Some g ->
        g_unicode g = unicode_of (reverse_cmap (tt_best_cmap tt_font)) name.

(** The fonts the log shows leaving the glyph loop are minimal fonts. *)
Definition hands_on_minimal_font (env : Collaborators) (request : Request)
    (dl : bool) (ev : event) : Prop :=
  match ev with
  | EvRasterize ufo _ _ | EvRotorize ufo _ _ | EvExtractInfo ufo =>
      minimal_font env request dl ufo
  | _ => True
  end.

(** A request that the checks of lines 60-69 turn away. *)
Definition rejected (fid : string) (request : Request) : bool :=
  negb (in_list fid ["rasterizer"; "rotorizer"; "extruder"])
  || negb (truthy (Dict.get (files request) "font_file"))
  || too_long (Dict.get (form request) "preview_string").

(** The state of the font in the glyph loop once the names [done] are
    through: its identity fields and its kerning are as they were set
    before the loop, and it holds one glyph for each of the names, with the
    Unicode value of the reverse map. *)
Definition font_holds (cmap_reversed : Dict.t string Z)
    (units : option Z) (family style : option string)
    (done : list glyph_name) (ufo : Font) : Prop :=
  unitsPerEm ufo = units
  /\ familyName ufo = family
  /\ styleName ufo = style
  /\ kerning ufo = []
  /\ NoDup (Dict.keys (glyphs ufo))
  /\ (forall name, In name (Dict.keys (glyphs ufo)) <-> In name done)
  /\ forall name g,
      Dict.get (glyphs ufo) name = Some g ->
      g_unicode g = unicode_of cmap_reversed name.

(** * Properties *)

(** ** Base64: the test vectors of RFC 4648, and decoding after encoding *)

Example b64encode_rfc4648 :
  map (fun s => Base64.b64encode (list_byte_of_string s))
      [""; "f"; "fo"; "foo"; "foob"; "fooba"; "foobar"]
  = [""; "Zg=="; "Zm8="; "Zm9v"; "Zm9vYg=="; "Zm9vYmE="; "Zm9vYmFy"].
Proof. vm_compute. reflexivity. Qed.

Module Base64Facts.
Import Base64.
#[local] Open Scope N_scope.

Ltac div_lia := zify; Z.to_euclidean_division_equations; lia.

Lemma small_cases (Q : N -> Prop) :
  (forall n, n < 64 -> Q n) <-> Forall Q (map N.of_nat (seq 0 64)).
Proof.
  rewrite Forall_forall. split.
  - intros H n Hin. apply H. apply in_map_iff in Hin.
    destruct Hin as [k [<- Hk]]. apply in_seq in Hk. lia.
  - intros H n Hn. apply H. apply in_map_iff. exists (N.to_nat n).
    split; [apply N2Nat.id|]. apply in_seq. lia.
Qed.

Lemma value_digit n : n < 64 -> value (digit n) = Some n.
Proof.
  revert n. apply small_cases. vm_compute. repeat constructor.
Qed.

Lemma digit_not_pad n : n < 64 -> Ascii.eqb (digit n) "=" = false.
Proof.
  revert n. apply small_cases. vm_compute. repeat constructor.
Qed.

Lemma bytes3_pack a b c : bytes3 (pack a b c) = Some [a; b; c].
Proof.
  unfold bytes3, pack.
  pose proof (Byte.to_N_bounded a). pose proof (Byte.to_N_bounded b).
  pose proof (Byte.to_N_bounded c).
  replace ((to_N a * 65536 + to_N b * 256 + to_N c) / 65536) with (to_N a)
    by div_lia.
  replace (((to_N a * 65536 + to_N b * 256 + to_N c) / 256) mod 256)
    with (to_N b) by div_lia.
  replace ((to_N a * 65536 + to_N b * 256 + to_N c) mod 256) with (to_N c)
    by div_lia.
  now rewrite !Byte.of_to_N.
Qed.

Lemma sextets_word w :
  w < 16777216 ->
  ((((w / 64 ^ 3) mod 64 * 64 + (w / 64 ^ 2) mod 64) * 64
    + (w / 64 ^ 1) mod 64) * 64 + (w / 64 ^ 0) mod 64) = w.
Proof.
  intros Hw. change (64 ^ 3) with 262144. change (64 ^ 2) with 4096.
  change (64 ^ 1) with 64. change (64 ^ 0) with 1.
  div_lia.
Qed.

Lemma list_ind3 {A} (Q : list A -> Prop) :
  Q [] -> (forall a, Q [a]) -> (forall a b, Q [a; b]) ->
  (forall a b c rest, Q rest -> Q (a :: b :: c :: rest)) ->
  forall l, Q l.
Proof.
  intros H0 H1 H2 H3.
  fix IH 1. intros [|a [|b [|c rest]]];
    [exact H0 | apply H1 | apply H2 | apply H3; apply IH].
Qed.

Lemma sextet_value w i : value (sextet w i) = Some ((w / 64 ^ i) mod 64).
Proof. apply value_digit. apply N.mod_lt. discriminate. Qed.

Lemma sextet_not_pad w i : Ascii.eqb (sextet w i) "=" = false.
Proof. apply digit_not_pad. apply N.mod_lt. discriminate. Qed.

Lemma pack_bound a b c : pack a b c < 16777216.
Proof.
  unfold pack.
  pose proof (Byte.to_N_bounded a). pose proof (Byte.to_N_bounded b).
  pose proof (Byte.to_N_bounded c). lia.
Qed.

(** Decoding an encoded text gives the bytes back. *)
Theorem b64decode_b64encode bs : b64decode (b64encode bs) = Some bs.
Proof.
  induction bs as [|a|a b|a b c rest IH] using list_ind3.
  - reflexivity.
  - cbn [b64encode b64decode]. rewrite !sextet_value. cbn [Ascii.eqb Bool.eqb].
    set (w := pack a x00 x00).
    replace (((w / 64 ^ 3) mod 64 * 64 + (w / 64 ^ 2) mod 64) * 4096) with w.
    + unfold w. now rewrite bytes3_pack.
    + unfold w, pack. change (to_N x00) with 0.
      pose proof (Byte.to_N_bounded a).
      change (64 ^ 3) with 262144. change (64 ^ 2) with 4096. div_lia.
  - cbn [b64encode b64decode]. rewrite !sextet_value, sextet_not_pad.
    cbn [Ascii.eqb Bool.eqb].
    set (w := pack a b x00).
    replace ((((w / 64 ^ 3) mod 64 * 64 + (w / 64 ^ 2) mod 64) * 64
              + (w / 64 ^ 1) mod 64) * 64) with w.
    + unfold w. now rewrite bytes3_pack.
    + unfold w, pack. change (to_N x00) with 0.
      pose proof (Byte.to_N_bounded a). pose proof (Byte.to_N_bounded b).
      change (64 ^ 3) with 262144. change (64 ^ 2) with 4096.
      change (64 ^ 1) with 64. div_lia.
  - cbn [b64encode b64decode]. rewrite !sextet_value, sextet_not_pad, IH.
    rewrite sextets_word by apply pack_bound.
    now rewrite bytes3_pack.
Qed.

Corollary b64encode_injective bs bs' :
  b64encode bs = b64encode bs' -> bs = bs'.
Proof.
  intros Heq. apply (f_equal b64decode) in Heq.
  rewrite !b64decode_b64encode in Heq. congruence.
Qed.

End Base64Facts.

(** ** Dictionaries *)

Module DictFacts.
Section DictFacts.
Context {K V : Type} `{EqDec K}.
Implicit Types (d : Dict.t K V) (k : K) (v : V).

Lemma get_set_same d k v : Dict.get (Dict.set d k v) k = Some v.
Proof.
  induction d as [|[k' v'] d IH]; simpl.
  - destruct (eq_dec k k); congruence.
  - destruct (eq_dec k k') as [->|Hne]; simpl.
    + destruct (eq_dec k' k'); congruence.
    + destruct (eq_dec k k'); [congruence | exact IH].
Qed.

Lemma get_set_other d k k' v :
  k <> k' -> Dict.get (Dict.set d k v) k' = Dict.get d k'.
Proof.
  intros Hne. induction d as [|[k0 v0] d IH]; simpl.
  - destruct (eq_dec k' k); congruence.
  - destruct (eq_dec k k0) as [->|Hk]; simpl.
    + destruct (eq_dec k' k0); congruence.
    + destruct (eq_dec k' k0); [reflexivity | exact IH].
Qed.

Lemma get_None_keys d k : Dict.get d k = None <-> ~ In k (Dict.keys d).
Proof.
  induction d as [|[k' v'] d IH]; simpl.
  - tauto.
  - destruct (eq_dec k k') as [->|Hne].
    + split; [discriminate | intros Hn; exfalso; apply Hn; now left].
    + rewrite IH. split.
      * intros Hn [Heq|Hin]; [congruence | tauto].
      * tauto.
Qed.

Lemma get_Some_In d k v : Dict.get d k = Some v -> In (k, v) d.
Proof.
  induction d as [|[k' v'] d IH]; simpl; [discriminate|].
  destruct (eq_dec k k') as [->|Hne].
  - intros [= ->]. now left.
  - intros Hg. right. auto.
Qed.

Lemma In_get d k v :
  NoDup (Dict.keys d) -> In (k, v) d -> Dict.get d k = Some v.
Proof.
  induction d as [|[k' v'] d IH]; simpl; [tauto|].
  intros Hnd [Heq|Hin].
  - injection Heq as -> ->. destruct (eq_dec k k); congruence.
  - inversion Hnd as [|? ? Hnot Hnd']; subst.
    destruct (eq_dec k k') as [->|Hne]; [|auto].
    exfalso. apply Hnot. change k' with (fst (k', v)). now apply in_map.
Qed.

Lemma keys_set d k v :
  Dict.keys (Dict.set d k v)
  = if Dict.mem d k then Dict.keys d else Dict.keys d ++ [k].
Proof.
  unfold Dict.mem. induction d as [|[k' v'] d IH]; simpl; [reflexivity|].
  destruct (eq_dec k k') as [->|Hne]; simpl; [reflexivity|].
  rewrite IH. now destruct (Dict.get d k).
Qed.

Lemma NoDup_keys_set d k v :
  NoDup (Dict.keys d) -> NoDup (Dict.keys (Dict.set d k v)).
Proof.
  intros Hnd. rewrite keys_set. unfold Dict.mem.
  destruct (Dict.get d k) eqn:Hg; [exact Hnd|].
  apply get_None_keys in Hg.
  apply NoDup_app; [exact Hnd | repeat constructor; simpl; tauto |].
  intros x Hx [<-|[]]. contradiction.
Qed.

Lemma NoDup_keys_update d items :
  NoDup (Dict.keys d) -> NoDup (Dict.keys (Dict.update d items)).
Proof.
  unfold Dict.update. revert d.
  induction items as [|[k v] items IH]; intros d Hnd; simpl; [exact Hnd|].
  apply IH. now apply NoDup_keys_set.
Qed.

Lemma In_set d k v k' v' :
  In (k', v') (Dict.set d k v) -> In (k', v') d \/ (k', v') = (k, v).
Proof.
  induction d as [|[k0 v0] d IH]; simpl.
  - intros [Heq|[]]. right. congruence.
  - destruct (eq_dec k k0) as [->|Hne]; simpl.
    + intros [Heq|Hin]; [right; congruence | left; now right].
    + intros [Heq|Hin]; [left; now left|].
      destruct (IH Hin); [left; now right | now right].
Qed.

Lemma In_update d items k v :
  In (k, v) (Dict.update d items) -> In (k, v) d \/ In (k, v) items.
Proof.
  unfold Dict.update. revert d.
  induction items as [|[k0 v0] items IH]; intros d; simpl; [tauto|].
  intros Hin. destruct (IH _ Hin) as [Hd|Hi]; [|tauto].
  apply In_set in Hd. destruct Hd as [Hd|Heq]; [tauto|].
  right. left. congruence.
Qed.

Lemma In_keys_set d k v k' :
  In k' (Dict.keys (Dict.set d k v)) <-> In k' (Dict.keys d) \/ k' = k.
Proof.
  rewrite keys_set. unfold Dict.mem.
  destruct (Dict.get d k) eqn:Hg.
  - split; [tauto|]. intros [Hin| ->]; [exact Hin|].
    apply get_Some_In in Hg. change k with (fst (k, v0)). now apply in_map.
  - rewrite in_app_iff. simpl. intuition congruence.
Qed.

Lemma In_keys_update d items k :
  In k (Dict.keys (Dict.update d items))
  <-> In k (Dict.keys d) \/ In k (Dict.keys items).
Proof.
  unfold Dict.update. revert d.
  induction items as [|[k0 v0] items IH]; intros d; simpl; [tauto|].
  rewrite IH, In_keys_set. intuition congruence.
Qed.

(** The last value written under a key wins. *)
Lemma get_update d items k :
  Dict.get (Dict.update d items) k
  = match Dict.get (rev items) k with
    | Some v => Some v
    | None => Dict.get d k
    end.
Proof.
  unfold Dict.update. revert d.
  induction items as [|[k0 v0] items IH]; intros d; simpl; [reflexivity|].
  rewrite IH.
  assert (Happ : forall (l : Dict.t K V) k1 v1,
             Dict.get (l ++ [(k1, v1)]) k
             = match Dict.get l k with
               | Some v => Some v
               | None => if eq_dec k k1 then Some v1 else None
               end).
  { intros l k1 v1. induction l as [|[a b] l IHl]; simpl; [reflexivity|].
    destruct (eq_dec k a); [reflexivity | exact IHl]. }
  rewrite Happ. destruct (Dict.get (rev items) k); [reflexivity|].
  destruct (eq_dec k k0) as [->|Hne].
  - apply get_set_same.
  - apply get_set_other. congruence.
Qed.

Lemma get_rev d k :
  NoDup (Dict.keys d) -> Dict.get (rev d) k = Dict.get d k.
Proof.
  intros Hnd. destruct (Dict.get d k) eqn:Hg.
  - apply In_get.
    + unfold Dict.keys. rewrite map_rev. now apply NoDup_rev.
    + apply in_rev. rewrite rev_involutive. now apply get_Some_In.
  - apply get_None_keys. apply get_None_keys in Hg.
    unfold Dict.keys in *. rewrite map_rev, <- in_rev. exact Hg.
Qed.

End DictFacts.
End DictFacts.

(** ** Glyph selection *)

Lemma is_in_ranges_spec code_point :
  is_in_ranges code_point = true <-> 32 <= code_point <= 126.
Proof.
  unfold is_in_ranges, ranges, is_in_ranges_from.
  destruct (32 <=? code_point) eqn:Hlo, (code_point <=? 126) eqn:Hhi; simpl;
    split; intros Hx; try discriminate; try reflexivity; lia.
Qed.

Lemma reverse_cmap_update cmap :
  reverse_cmap cmap = Dict.update [] (map (fun kv => (snd kv, fst kv)) cmap).
Proof.
  unfold reverse_cmap, Dict.update.
  generalize (@nil (string * Z)).
  induction cmap as [|[k v] cmap IH]; intros acc; simpl; [reflexivity|].
  apply IH.
Qed.

Lemma reverse_cmap_NoDup cmap : NoDup (Dict.keys (reverse_cmap cmap)).
Proof.
  rewrite reverse_cmap_update. apply DictFacts.NoDup_keys_update. constructor.
Qed.

(** Every entry of the reverse map comes from the forward map. *)
Lemma reverse_cmap_sound cmap g u :
  Dict.get (reverse_cmap cmap) g = Some u -> In (u, g) cmap.
Proof.
  intros Hg. apply DictFacts.get_Some_In in Hg.
  rewrite reverse_cmap_update in Hg.
  apply DictFacts.In_update in Hg. destruct Hg as [[]|Hin].
  apply in_map_iff in Hin. destruct Hin as [[k v] [Heq Hin]].
  simpl in Heq. congruence.
Qed.

(** The download loop is a filter on the reverse map, in its order. *)
Lemma download_selection_filter cmap_reversed :
  download_selection cmap_reversed
  = map (fun item => Some (fst item))
        (filter (fun item => is_in_ranges (snd item)) cmap_reversed).
Proof.
  unfold download_selection.
  enough (Hgen : forall acc,
             fold_left
               (fun acc item =>
                  if is_in_ranges (snd item) then acc ++ [Some (fst item)]
                  else acc) cmap_reversed acc
             = acc ++ map (fun item => Some (fst item))
                        (filter (fun item => is_in_ranges (snd item))
                                cmap_reversed))
    by apply (Hgen []).
  induction cmap_reversed as [|[g u] rest IH]; intros acc; simpl.
  - now rewrite app_nil_r.
  - rewrite IH. destruct (is_in_ranges u); simpl; [|reflexivity].
    now rewrite <- app_assoc.
Qed.

Lemma NoDup_keys_filter {K V} (f : K * V -> bool) (d : list (K * V)) :
  NoDup (map fst d) -> NoDup (map fst (filter f d)).
Proof.
  induction d as [|kv d IH]; simpl; [auto|].
  intros Hnd. inversion Hnd as [|? ? Hnot Hnd']; subst.
  destruct (f kv); simpl; [|auto].
  constructor; [|auto].
  intros Hin. apply Hnot. apply in_map_iff in Hin.
  destruct Hin as [x [Hx Hin]]. apply filter_In in Hin.
  apply in_map_iff. exists x. tauto.
Qed.

Lemma download_selection_NoDup cmap :
  NoDup (download_selection (reverse_cmap cmap)).
Proof.
  rewrite download_selection_filter, <- (map_map fst Some).
  apply NoDup_map_NoDup_ForallPairs; [intros x y _ _; congruence|].
  apply NoDup_keys_filter. apply reverse_cmap_NoDup.
Qed.

Lemma download_selection_In cmap name :
  In name (download_selection (reverse_cmap cmap))
  <-> exists g u, name = Some g
                  /\ Dict.get (reverse_cmap cmap) g = Some u
                  /\ 32 <= u <= 126.
Proof.
  rewrite download_selection_filter, in_map_iff. split.
  - intros [[g u] [Hname Hin]]. apply filter_In in Hin.
    destruct Hin as [Hin Hr]. simpl in *. exists g, u.
    split; [congruence|]. split; [|now apply is_in_ranges_spec].
    apply DictFacts.In_get; [apply reverse_cmap_NoDup | exact Hin].
  - intros [g [u [-> [Hg Hr]]]]. exists (g, u). split; [reflexivity|].
    apply filter_In. split; [now apply DictFacts.get_Some_In|].
    now apply is_in_ranges_spec.
Qed.

(** Each character of the preview string puts its lookup in the selection,
    a glyph name or [None]. *)
Lemma preview_selection_lookup cmap s char :
  In char s -> In (Dict.get cmap char) (preview_selection cmap s).
Proof.
  intros Hin. unfold preview_selection, py_set.
  apply in_map. now apply nodup_In.
Qed.

Lemma preview_selection_In cmap s name :
  In name (preview_selection cmap s)
  <-> exists char, In char s /\ Dict.get cmap char = name.
Proof.
  unfold preview_selection, py_set. rewrite in_map_iff.
  split; intros [c [H1 H2]]; exists c; rewrite nodup_In in *; tauto.
Qed.

Lemma preview_selection_NoDup cmap s :
  (forall c1 c2, In c1 s -> In c2 s ->
                 Dict.get cmap c1 = Dict.get cmap c2 -> c1 = c2) ->
  NoDup (preview_selection cmap s).
Proof.
  intros Hinj. unfold preview_selection, py_set.
  apply NoDup_map_NoDup_ForallPairs; [|apply NoDup_nodup].
  intros a b Ha Hb Heq. rewrite nodup_In in Ha, Hb. auto.
Qed.

(** Entries already selected keep their positions through the closure. *)
Lemma closed_selection_prefix selected components i name :
  nth_error selected i = Some name ->
  nth_error (closed_selection selected components) i = Some name.
Proof.
  intros Hn. unfold closed_selection.
  rewrite nth_error_app1; [exact Hn|].
  apply nth_error_Some. congruence.
Qed.

Lemma closed_selection_NoDup selected components :
  NoDup selected -> NoDup components ->
  (forall c, In c components -> ~ In (Some c) selected) ->
  NoDup (closed_selection selected components).
Proof.
  intros Hs Hc Hdisj. unfold closed_selection.
  apply NoDup_app; [exact Hs | |].
  - apply NoDup_map_NoDup_ForallPairs; [intros x y _ _; congruence | exact Hc].
  - intros a Ha Hin. apply in_map_iff in Hin.
    destruct Hin as [c [<- Hin]]. exact (Hdisj c Hin Ha).
Qed.

(** ** Reasoning about steps *)

#[export] Instance Pieces_Forall (p : event -> Prop) : Pieces (Forall p).
Proof.
  split; [constructor | intros a b Ha Hb; apply Forall_app; now split].
Qed.

Lemma bind_inr {A B} (m : M A) (k : A -> M B) log y log' :
  bind m k log = (inr y, log') ->
  exists x log1, m log = (inr x, log1) /\ k x log1 = (inr y, log').
Proof.
  unfold bind. destruct (m log) as [[e|x] log1]; [discriminate|].
  intros Hk. now exists x, log1.
Qed.

Lemma call_inr {A} ev (r : result A) log x log' :
  call ev r log = (inr x, log') -> r = inr x /\ log' = log ++ [ev].
Proof. unfold call. intros [= -> <-]. auto. Qed.

Lemma lift_inr {A} (r : result A) log x log' :
  lift r log = (inr x, log') -> r = inr x /\ log' = log.
Proof. unfold lift. intros [= -> <-]. auto. Qed.

Section Emits.
Context (P : list event -> Prop) `{Pieces P}.

Lemma emits_ret {A} (Q : A -> Prop) x : Q x -> emits P Q (ret x).
Proof.
  intros Hq log r log' [= <- <-]. exists []. rewrite app_nil_r.
  repeat split; [apply pieces_nil | intros y [= <-]; exact Hq].
Qed.

Lemma emits_raise {A} (Q : A -> Prop) e : emits P Q (raise e).
Proof.
  intros log r log' [= <- <-]. exists []. rewrite app_nil_r.
  repeat split; [apply pieces_nil | discriminate].
Qed.

Lemma emits_lift {A} (Q : A -> Prop) (r : result A) :
  (forall x, r = inr x -> Q x) -> emits P Q (lift r).
Proof.
  intros Hq log r' log' [= <- <-]. exists []. rewrite app_nil_r.
  repeat split; [apply pieces_nil | exact Hq].
Qed.

Lemma emits_call {A} (Q : A -> Prop) ev (r : result A) :
  P [ev] -> (forall x, r = inr x -> Q x) -> emits P Q (call ev r).
Proof.
  intros Hp Hq log r' log' [= <- <-]. exists [ev]. auto.
Qed.

Lemma emits_bind {A B} (Q1 : A -> Prop) (Q : B -> Prop) m (k : A -> M B) :
  emits P Q1 m -> (forall x, Q1 x -> emits P Q (k x)) -> emits P Q (bind m k).
Proof.
  intros Hm Hk log r log'. unfold bind.
  destruct (m log) as [[e|x] log1] eqn:Em.
  - intros [= <- <-]. destruct (Hm _ _ _ Em) as [a [-> [Hp _]]].
    exists a. repeat split; [exact Hp | discriminate].
  - intros Ek. destruct (Hm _ _ _ Em) as [a [-> [Hp Hq]]].
    destruct (Hk x (Hq x eq_refl) _ _ _ Ek) as [b [-> [Hp' Hq']]].
    exists (a ++ b). rewrite app_assoc.
    repeat split; [now apply pieces_app | exact Hq'].
Qed.

Lemma emits_weaken {A} (Q Q' : A -> Prop) m :
  emits P Q m -> (forall x, Q x -> Q' x) -> emits P Q' m.
Proof.
  intros Hm Hw log r log' E. destruct (Hm _ _ _ E) as [a [-> [Hp Hq]]].
  exists a. repeat split; auto.
Qed.

Lemma emits_ext {A} (Q : A -> Prop) (m m' : M A) :
  (forall log, m log = m' log) -> emits P Q m -> emits P Q m'.
Proof. intros Heq Hm log r log' E. apply Hm. now rewrite Heq. Qed.

End Emits.

Lemma bind_assoc {A B C} (m : M A) (k : A -> M B) (h : B -> M C) log :
  bind (bind m k) h log = bind m (fun x => bind (k x) h) log.
Proof.
  unfold bind. destruct (m log) as [[e|x] log1]; reflexivity.
Qed.

(** Apply a rule and settle the side condition that [P] holds piecewise. *)
Ltac rule l := apply l; try exact _.
Ltac bind_with Q := apply emits_bind with (Q1 := Q); try exact _.
Ltac bind_any :=
  refine (emits_bind _ (fun _ => True) _ _ _ _ _); try exact _.

(** ** The stages of [process_font] *)

Section Stages.
Variable env : Collaborators.
Context (P : list event -> Prop) `{Pieces P}.

Lemma emits_form_int request key default :
  emits P (fun _ => True) (form_int env request key default).
Proof.
  unfold form_int. destruct (Dict.get (form request) key).
  - now rule emits_lift.
  - now rule emits_ret.
Qed.

Lemma emits_extract_outline tt_font name :
  (forall table, P [EvExtract table name]) ->
  emits P (fun outline => outline_source env tt_font name = inr outline)
        (extract_outline env tt_font name).
Proof.
  intros Hp. unfold extract_outline, outline_source.
  destruct (has_table tt_font "CFF "); [now rule emits_call|].
  destruct (has_table tt_font "CFF2"); [now rule emits_call|].
  destruct (has_table tt_font "glyf"); [now rule emits_call|].
  now rule emits_ret.
Qed.

(** One turn of the glyph loop: the glyph is stored under its name, bare
    unless the filter is the extruder. *)
Lemma emits_build_glyph filter_identifier tt_font cmap_reversed name ufo :
  (in_list filter_identifier ["extruder"] = true ->
   forall table, P [EvExtract table name]) ->
  emits P
    (fun ufo' =>
       exists g, ufo' = put_glyph ufo name g
                 /\ if in_list filter_identifier ["extruder"]
                    then full_glyph env tt_font cmap_reversed name g
                    else g = bare_glyph cmap_reversed name)
    (build_glyph env filter_identifier tt_font cmap_reversed name ufo).
Proof.
  intros Hp. unfold build_glyph.
  destruct (in_list filter_identifier ["extruder"]).
  - bind_with (fun width => advance_width tt_font name = inr width);
      [now rule emits_lift|].
    intros width Hw.
    bind_with (fun outline => outline_source env tt_font name = inr outline);
      [apply emits_extract_outline; auto|].
    intros outline Ho. rule emits_ret.
    eexists. split; [reflexivity|]. now exists width, outline.
  - rule emits_ret. eexists. split; reflexivity.
Qed.

(** After the glyph loop every name of the list has its glyph. *)
Lemma emits_glyph_loop (G : glyph_name -> Glyph -> Prop)
    (body : glyph_name -> Font -> M Font) names :
  (forall name ufo,
      In name names ->
      emits P (fun ufo' => exists g, ufo' = put_glyph ufo name g /\ G name g)
            (body name ufo)) ->
  forall done ufo,
    (forall name, In name done ->
                  exists g, Dict.get (glyphs ufo) name = Some g /\ G name g) ->
    emits P
      (fun ufo' =>
         forall name, In name (done ++ names) ->
                      exists g, Dict.get (glyphs ufo') name = Some g /\ G name g)
      (for_each names body ufo).
Proof.
  induction names as [|n names IH]; intros Hb done ufo Hdone; simpl.
  - rule emits_ret. now rewrite app_nil_r.
  - bind_with (fun ufo' => exists g, ufo' = put_glyph ufo n g /\ G n g);
      [apply Hb; now left|].
    intros ufo' [g [-> Hg]].
    apply emits_weaken
      with (Q := fun ufo' =>
                   forall name, In name ((done ++ [n]) ++ names) ->
                     exists g, Dict.get (glyphs ufo') name = Some g /\ G name g).
    + apply IH; [intros x u Hx; apply Hb; now right|].
      intros name Hin. apply in_app_iff in Hin. simpl.
      destruct (eq_dec n name) as [<-|Hne].
      * exists g. split; [apply DictFacts.get_set_same | exact Hg].
      * rewrite DictFacts.get_set_other by exact Hne.
        destruct Hin as [Hin|[Heq|[]]]; [auto | contradiction].
    + intros u Hu name Hin. apply Hu. now rewrite <- app_assoc.
Qed.

Lemma emits_assemble filter_identifier tt_font cmap_reversed dl names :
  (in_list filter_identifier ["extruder"] = true ->
   forall table name, P [EvExtract table name]) ->
  emits P
    (fun ufo =>
       forall name, In name names ->
         exists g, Dict.get (glyphs ufo) name = Some g
                   /\ if in_list filter_identifier ["extruder"]
                      then full_glyph env tt_font cmap_reversed name g
                      else g = bare_glyph cmap_reversed name)
    (assemble env filter_identifier tt_font cmap_reversed dl names).
Proof.
  intros Hp. unfold assemble.
  apply (emits_glyph_loop
           (fun name g =>
              if in_list filter_identifier ["extruder"]
              then full_glyph env tt_font cmap_reversed name g
              else g = bare_glyph cmap_reversed name)
           _ names) with (done := []).
  - intros name ufo _. apply emits_build_glyph. auto.
  - intros name [].
Qed.

Lemma emits_rename_outputs suffixes f output :
  (forall i font suffix, P [EvRename i font suffix]) ->
  emits P (fun _ => True) (rename_outputs env suffixes f output).
Proof.
  intros Hp. revert f.
  induction output as [|font rest IH]; intros f; simpl.
  - now rule emits_ret.
  - destruct (nth_error suffixes f) as [suffix|]; [|now rule emits_raise].
    bind_any.
    + destruct (negb (suffix =? "")%string); [|now rule emits_ret].
      destruct font as [u|t];
        (bind_any; [now rule emits_call | intros; now rule emits_ret]).
    + intros font' _. bind_any; [apply IH|].
      intros; now rule emits_ret.
Qed.

Lemma emits_fonts_to_base64 output :
  (forall font, P [EvEncode font]) ->
  emits P (fun _ => True) (fonts_to_base64 env output).
Proof.
  intros Hp. induction output as [|font rest IH]; simpl.
  - now rule emits_ret.
  - bind_any; [now rule emits_call|].
    intros bytes _. bind_any; [apply IH|].
    intros; now rule emits_ret.
Qed.

(** [process_font] from the parsed font on, given what holds of assembling
    and dispatching once the glyphs are chosen. *)
Lemma emits_process_parsed filter_identifier request dl tt_font :
  (forall selected,
      initial_selection dl (tt_best_cmap tt_font)
        (Dict.get (form request) "preview_string") = inr selected ->
      P [EvComponents selected]) ->
  (forall i font suffix, P [EvRename i font suffix]) ->
  (forall font, P [EvEncode font]) ->
  P [EvCollect] ->
  (forall font path, P [EvSave font path]) ->
  (forall selected components,
      initial_selection dl (tt_best_cmap tt_font)
        (Dict.get (form request) "preview_string") = inr selected ->
      get_components_in_subsetted_text env tt_font selected = inr components ->
      emits P (fun _ => True)
        (ufo <- assemble env filter_identifier tt_font
                         (reverse_cmap (tt_best_cmap tt_font)) dl
                         (closed_selection selected components) ;;
         dispatch env filter_identifier request (uploaded_bytes request)
                  tt_font (tt_best_cmap tt_font)
                  (reverse_cmap (tt_best_cmap tt_font))
                  (Dict.get (form request) "preview_string")
                  (closed_selection selected components) ufo)) ->
  emits P (fun _ => True)
        (process_parsed env filter_identifier request dl tt_font).
Proof.
  intros Hcomp Hren Henc Hcol Hsave Hmid. unfold process_parsed.
  bind_with (fun selected =>
               initial_selection dl (tt_best_cmap tt_font)
                 (Dict.get (form request) "preview_string") = inr selected);
    [rule emits_lift; auto|].
  intros selected Hsel.
  bind_with (fun components =>
               get_components_in_subsetted_text env tt_font selected
               = inr components);
    [rule emits_call; auto|].
  intros components Hcomps. cbv beta.
  eapply emits_ext; [intros log; apply bind_assoc|].
  bind_any; [now apply Hmid|].
  intros output _.
  bind_any.
  { destruct (Dict.get suffix_name_map filter_identifier);
      [now rule emits_ret | now rule emits_raise]. }
  intros suffixes _.
  bind_any; [now apply emits_rename_outputs|].
  intros renamed _.
  bind_any; [now apply emits_fonts_to_base64|].
  intros encoded _.
  bind_any; [now rule emits_call|].
  intros _ _.
  bind_any.
  { destruct renamed; [now rule emits_raise | now rule emits_call]. }
  intros _ _.
  destruct dl; [now rule emits_ret|].
  destruct (Dict.get (form request) "preview_string");
    [now rule emits_ret | now rule emits_raise].
Qed.

(** [process_font] as a whole. *)
Lemma emits_process_font filter_identifier request dl :
  (forall bytes, P [EvParse bytes]) ->
  (forall tt_font selected,
      parse_font env (uploaded_bytes request) = inr tt_font ->
      initial_selection dl (tt_best_cmap tt_font)
        (Dict.get (form request) "preview_string") = inr selected ->
      P [EvComponents selected]) ->
  (forall i font suffix, P [EvRename i font suffix]) ->
  (forall font, P [EvEncode font]) ->
  P [EvCollect] ->
  (forall font path, P [EvSave font path]) ->
  (forall tt_font selected components,
      in_list filter_identifier ["rasterizer"; "rotorizer"; "extruder"] = true ->
      parse_font env (uploaded_bytes request) = inr tt_font ->
      initial_selection dl (tt_best_cmap tt_font)
        (Dict.get (form request) "preview_string") = inr selected ->
      get_components_in_subsetted_text env tt_font selected = inr components ->
      emits P (fun _ => True)
        (ufo <- assemble env filter_identifier tt_font
                         (reverse_cmap (tt_best_cmap tt_font)) dl
                         (closed_selection selected components) ;;
         dispatch env filter_identifier request (uploaded_bytes request)
                  tt_font (tt_best_cmap tt_font)
                  (reverse_cmap (tt_best_cmap tt_font))
                  (Dict.get (form request) "preview_string")
                  (closed_selection selected components) ufo)) ->
  emits P (fun _ => True) (process_font env filter_identifier request dl).
Proof.
  intros Hparse Hcomp Hren Henc Hcol Hsave Hmid. unfold process_font.
  destruct (in_list filter_identifier ["rasterizer"; "rotorizer"; "extruder"])
    eqn:Hfid; cbn [negb]; [|now rule emits_raise].
  destruct (truthy (Dict.get (files request) "font_file")); cbn [negb];
    [|now rule emits_raise].
  destruct (too_long (Dict.get (form request) "preview_string"));
    [now rule emits_raise|].
  bind_with (fun tt_font => parse_font env (uploaded_bytes request) = inr tt_font);
    [rule emits_call; auto|].
  intros tt_font Htt. apply emits_process_parsed; eauto.
Qed.

End Stages.

(** ** Requests that succeed *)

(** Split [x <- m ;; k] that returned into [m] returning [x] and [k x]
    returning. *)
Ltac split_bind E x l E1 :=
  apply bind_inr in E; destruct E as [x [l [E1 E]]].

Section Success.
Variable env : Collaborators.

(** A successful dispatch called one filter and returned what it gave. *)
Lemma dispatch_inr fid request bytes tt_font cmap cmap_reversed ps names ufo
      log output log' :
  dispatch env fid request bytes tt_font cmap cmap_reversed ps names ufo log
  = (inr output, log') ->
  (fid = "rasterizer"
   /\ exists resolution font,
       rasterize env ufo tt_font bytes names resolution = inr font
       /\ output = [font])
  \/ (fid = "rotorizer"
      /\ exists depth,
          rotorize env ufo names cmap_reversed tt_font depth = inr output)
  \/ (fid = "extruder"
      /\ exists angle ufo' font,
          extrude_variable env ufo' names angle = inr font
          /\ output = [font]).
Proof.
  unfold dispatch. intros E.
  destruct (String.eqb_spec fid "rasterizer") as [->|_].
  { left. split; [reflexivity|].
    split_bind E resolution l1 E1. split_bind E font l2 E2.
    apply call_inr in E2. destruct E2 as [Hr _].
    injection E as <- _. eauto. }
  destruct (String.eqb_spec fid "rotorizer") as [->|_].
  { right. left. split; [reflexivity|].
    split_bind E depth l1 E1. apply call_inr in E. destruct E as [Hr _].
    eauto. }
  destruct (String.eqb_spec fid "extruder") as [->|_]; [|discriminate].
  right. right. split; [reflexivity|].
  split_bind E angle l1 E1. split_bind E ufo1 l2 E2.
  split_bind E kern l3 E3. split_bind E font l4 E4.
  apply call_inr in E4. destruct E4 as [Hr _].
  injection E as <- _. eauto.
Qed.

Lemma rename_outputs_inr suffixes f output log output' log' :
  rename_outputs env suffixes f output log = (inr output', log') ->
  renamed_all env suffixes f output output'.
Proof.
  revert f log output' log'.
  induction output as [|font rest IH]; intros f log output' log'; simpl.
  - intros [= <- _]. exact I.
  - destruct (nth_error suffixes f) as [suffix|] eqn:Hs; [|discriminate].
    intros E. split_bind E font' l1 E1. split_bind E rest' l2 E2.
    injection E as <- _.
    split; [|eapply IH; eassumption].
    exists suffix. split; [reflexivity|].
    destruct (suffix =? "")%string; cbn [negb] in E1.
    + now injection E1 as <- _.
    + destruct font as [u|t]; split_bind E1 y l3 E3; injection E1 as <- _;
        apply call_inr in E3; exact (proj1 E3).
Qed.

Lemma fonts_to_base64_inr output log encoded log' :
  fonts_to_base64 env output log = (inr encoded, log') ->
  Forall2 (encodes env) output encoded.
Proof.
  revert log encoded log'.
  induction output as [|font rest IH]; intros log encoded log'; simpl.
  - intros [= <- _]. constructor.
  - intros E. split_bind E bytes l1 E1. split_bind E rest' l2 E2.
    injection E as <- _.
    apply call_inr in E1. destruct E1 as [Hb _].
    constructor; [now exists bytes | eapply IH; eassumption].
Qed.

(** What a successful request went through. *)
Lemma process_font_inr fid request dl response log :
  run (process_font env fid request dl) = (inr response, log) ->
  exists tt_font selected components ufo output suffixes output' encoded
         log1 log2 log3 log4 first,
    let bytes := uploaded_bytes request in
    let ps := Dict.get (form request) "preview_string" in
    let cmap := tt_best_cmap tt_font in
    let names := closed_selection selected components in
    in_list fid ["rasterizer"; "rotorizer"; "extruder"] = true
    /\ parse_font env bytes = inr tt_font
    /\ initial_selection dl cmap ps = inr selected
    /\ get_components_in_subsetted_text env tt_font selected = inr components
    /\ assemble env fid tt_font (reverse_cmap cmap) dl names
                [EvParse bytes; EvComponents selected] = (inr ufo, log1)
    /\ dispatch env fid request bytes tt_font cmap (reverse_cmap cmap) ps
                names ufo log1 = (inr output, log2)
    /\ Dict.get suffix_name_map fid = Some suffixes
    /\ rename_outputs env suffixes 0 output log2 = (inr output', log3)
    /\ fonts_to_base64 env output' log3 = (inr encoded, log4)
    /\ hd_error output' = Some first
    /\ log = log4 ++ [EvCollect; EvSave first "output.ttf"]
    /\ response_fonts response
       = (if in_list fid ["extruder"]
          then encoded ++ [Base64.b64encode bytes] else encoded)
    /\ (if dl then response = DownloadResponse (response_fonts response)
        else exists s,
            ps = Some s
            /\ response
               = PreviewResponse (response_fonts response)
                   (warnings_for (missing_glyphs cmap s))
                   (echoed_preview_string s (missing_glyphs cmap s))).
Proof.
  unfold run, process_font. intros E.
  destruct (in_list fid ["rasterizer"; "rotorizer"; "extruder"]) eqn:Hfid;
    cbn [negb] in E; [|discriminate].
  destruct (truthy (Dict.get (files request) "font_file"));
    cbn [negb] in E; [|discriminate].
  destruct (too_long (Dict.get (form request) "preview_string"));
    [discriminate|].
  split_bind E tt_font l1 E1. apply call_inr in E1. destruct E1 as [Htt ->].
  unfold process_parsed in E.
  split_bind E selected l2 E2. apply lift_inr in E2. destruct E2 as [Hsel ->].
  split_bind E components l3 E3. apply call_inr in E3.
  destruct E3 as [Hcomp ->].
  split_bind E ufo log1 Ea. split_bind E output log2 Ed.
  split_bind E suffixes l4 Es.
  destruct (Dict.get suffix_name_map fid) as [suffixes'|] eqn:Hsuf;
    [|discriminate].
  injection Es as <- <-.
  split_bind E output' log3 Er. split_bind E encoded log4 Ee.
  split_bind E u l5 Ec. apply call_inr in Ec. destruct Ec as [_ ->].
  split_bind E u' l6 Ev.
  destruct output' as [|first rest]; [discriminate|].
  apply call_inr in Ev. destruct Ev as [_ ->].
  exists tt_font, selected, components, ufo, output, suffixes',
    (first :: rest), encoded, log1, log2, log3, log4, first.
  cbv zeta. rewrite <- app_assoc in E. simpl app in *.
  repeat (split; [first [reflexivity | eassumption]|]).
  destruct dl.
  - injection E as <- <-. simpl. repeat split; reflexivity.
  - destruct (Dict.get (form request) "preview_string") as [s|];
      [|discriminate].
    injection E as <- <-. simpl. repeat split; try reflexivity.
    exists s. split; reflexivity.
Qed.

End Success.

(** ** Minimal-font assembly: widths and outlines *)

Lemma in_list_extruder fid :
  in_list fid ["extruder"] = true <-> fid = "extruder".
Proof.
  unfold in_list. simpl. rewrite orb_false_r. apply String.eqb_eq.
Qed.

Section Assembly.
Variable env : Collaborators.

(** Dispatching, for a property that holds event by event. *)
Lemma emits_dispatch (p : event -> Prop) fid request bytes tt_font cmap
      cmap_reversed ps names ufo :
  (fid = "rasterizer" -> forall n, p (EvRasterize ufo names n)) ->
  (fid = "rotorizer" -> forall n, p (EvRotorize ufo names n)) ->
  (fid = "extruder" ->
   p (EvExtractInfo ufo)
   /\ (forall w, p (EvKerning bytes w ps cmap))
   /\ (forall u n, p (EvExtrude u names n))) ->
  emits (Forall p) (fun _ => True)
        (dispatch env fid request bytes tt_font cmap cmap_reversed ps names ufo).
Proof.
  intros Hras Hrot Hext. unfold dispatch.
  destruct (String.eqb_spec fid "rasterizer") as [Hf|_].
  { bind_any; [apply emits_form_int; exact _|]. intros n _.
    bind_any; [rule emits_call; auto|]. intros; now rule emits_ret. }
  destruct (String.eqb_spec fid "rotorizer") as [Hf|_].
  { bind_any; [apply emits_form_int; exact _|]. intros n _.
    rule emits_call; auto. }
  destruct (String.eqb_spec fid "extruder") as [Hf|_]; [|now rule emits_raise].
  destruct (Hext Hf) as [Hinfo [Hkern Hextr]].
  bind_any; [apply emits_form_int; exact _|]. intros n _.
  bind_any; [rule emits_call; auto|]. intros ufo1 _.
  bind_any; [rule emits_call; auto|]. intros kern _.
  bind_any; [rule emits_call; auto|]. intros; now rule emits_ret.
Qed.

Lemma process_font_without_outlines fid request dl :
  fid <> "extruder" ->
  emits (Forall without_outlines) (fun _ => True)
        (process_font env fid request dl).
Proof.
  intros Hfid.
  assert (Hx : in_list fid ["extruder"] = false).
  { destruct (in_list fid ["extruder"]) eqn:E; [|reflexivity].
    apply in_list_extruder in E. contradiction. }
  apply emits_process_font; try exact _;
    try (intros; repeat constructor; exact I).
  intros tt_font selected components _ Htt Hsel Hcomp.
  eapply emits_bind; [exact _ | apply emits_assemble; [exact _|] |].
  - rewrite Hx. discriminate.
  - cbv beta. rewrite Hx. intros ufo Hufo.
    apply emits_dispatch.
    + intros _ n name Hin. destruct (Hufo name Hin) as [g [Hg ->]].
      exists (bare_glyph (reverse_cmap (tt_best_cmap tt_font)) name). auto.
    + intros _ n name Hin. destruct (Hufo name Hin) as [g [Hg ->]].
      exists (bare_glyph (reverse_cmap (tt_best_cmap tt_font)) name). auto.
    + intros Hf. contradiction.
Qed.

Lemma process_font_with_outlines request dl :
  emits (Forall (with_outlines env request dl)) (fun _ => True)
        (process_font env "extruder" request dl).
Proof.
  apply emits_process_font; try exact _;
    try (intros; repeat constructor; exact I).
  intros tt_font selected components _ Htt Hsel Hcomp.
  eapply emits_bind; [exact _ | apply emits_assemble; [exact _|] |].
  - intros _ table name. repeat constructor.
  - cbv beta. intros ufo Hufo.
    apply emits_dispatch; try discriminate.
    intros _. repeat split.
    exists tt_font, selected, components. auto.
Qed.

End Assembly.

(** C2 (as the code has it): outline extraction and the advance-width copy
    go together.  For the rasterizer and the rotorizer no extractor is ever
    called, and every glyph of the font handed to the filter has neither
    width nor outline.  For the extruder every glyph of the closed selection
    leaves the glyph loop with its advance width from [hmtx] and with the
    outline returned by the extractor of the first table present among CFF,
    CFF2 and glyf. *)
Theorem outlines_and_widths_for_extruder_only env fid request dl r log :
  run (process_font env fid request dl) = (r, log) ->
  (fid <> "extruder" ->
   (forall table name, ~ In (EvExtract table name) log)
   /\ (forall ufo names n,
         In (EvRasterize ufo names n) log \/ In (EvRotorize ufo names n) log ->
         forall name, In name names ->
           exists g, Dict.get (glyphs ufo) name = Some g
                     /\ g_width g = None /\ g_outline g = []))
  /\ (fid = "extruder" ->
      forall ufo, In (EvExtractInfo ufo) log ->
        exists tt_font selected components,
          parse_font env (uploaded_bytes request) = inr tt_font
          /\ initial_selection dl (tt_best_cmap tt_font)
               (Dict.get (form request) "preview_string") = inr selected
          /\ get_components_in_subsetted_text env tt_font selected
             = inr components
          /\ forall name, In name (closed_selection selected components) ->
               exists width outline,
                 advance_width tt_font name = inr width
                 /\ outline_source env tt_font name = inr outline
                 /\ Dict.get (glyphs ufo) name
                    = Some {| g_unicode :=
                                unicode_of (reverse_cmap (tt_best_cmap tt_font))
                                           name;
                              g_width := Some width;
                              g_outline := outline |}).
Proof.
  intros Hrun. split.
  - intros Hfid.
    destruct (process_font_without_outlines env fid request dl Hfid _ _ _ Hrun)
      as [added [-> [Hall _]]].
    simpl. rewrite Forall_forall in Hall. split.
    + intros table name Hin. exact (Hall _ Hin).
    + intros ufo names n [Hin|Hin]; exact (Hall _ Hin).
  - intros -> ufo Hin.
    destruct (process_font_with_outlines env request dl _ _ _ Hrun)
      as [added [-> [Hall _]]].
    simpl in Hin. rewrite Forall_forall in Hall.
    destruct (Hall _ Hin) as [tt_font [selected [components [Htt [Hsel [Hc Hg]]]]]].
    exists tt_font, selected, components. repeat split; try assumption.
    intros name Hname.
    destruct (Hg name Hname) as [g [Hget [w [o [Hw [Ho ->]]]]]].
    exists w, o. auto.
Qed.

Lemma outlines_and_widths_for_extruder_only_witness :
  exists r log ufo,
    run (process_font Demo.env "extruder" (Demo.request [65; 66]) false)
    = (r, log)
    /\ In (EvExtractInfo ufo) log
    /\ exists tt_font selected components,
        parse_font Demo.env (uploaded_bytes (Demo.request [65; 66]))
        = inr tt_font
        /\ initial_selection false (tt_best_cmap tt_font)
             (Dict.get (form (Demo.request [65; 66])) "preview_string")
           = inr selected
        /\ get_components_in_subsetted_text Demo.env tt_font selected
           = inr components
        /\ forall name, In name (closed_selection selected components) ->
             exists width outline,
               advance_width tt_font name = inr width
               /\ outline_source Demo.env tt_font name = inr outline
               /\ Dict.get (glyphs ufo) name
                  = Some {| g_unicode :=
                              unicode_of (reverse_cmap (tt_best_cmap tt_font))
                                         name;
                            g_width := Some width;
                            g_outline := outline |}.
Proof.
  eexists _, _, _.
  split; [vm_compute; reflexivity|].
  split; [do 4 right; left; reflexivity|].
  eapply (outlines_and_widths_for_extruder_only Demo.env "extruder"
            (Demo.request [65; 66]) false).
  - vm_compute. reflexivity.
  - reflexivity.
  - do 4 right. left. reflexivity.
Defined.

(** C2 fails as stated: a rasterizer request for "A" succeeds without a
    single extractor call, although the font has an outline for "A". *)
Lemma rasterizer_extracts_no_outline :
  let outcome :=
    run (process_font Demo.env "rasterizer" (Demo.request [65]) false) in
  (exists response, fst outcome = inr response)
  /\ filter_names (snd outcome) = [[Some "A"]]
  /\ filter is_extract (snd outcome) = []
  /\ outline_source Demo.env Demo.font (Some "A") = inr Demo.triangle.
Proof. vm_compute. repeat split. eexists. reflexivity. Qed.

(** ** The glyph names along the pipeline *)

Lemma process_font_given_selection env fid request dl :
  emits (Forall (given_selection env request dl)) (fun _ => True)
        (process_font env fid request dl).
Proof.
  apply emits_process_font; try exact _;
    try solve [intros; repeat constructor].
  - intros tt_font selected Htt Hsel. repeat constructor.
    now exists tt_font.
  - intros tt_font selected components _ Htt Hsel Hcomp.
    eapply emits_bind; [exact _ | apply emits_assemble; [exact _|] |].
    + intros; repeat constructor.
    + intros ufo _.
      assert (Hnames : exists tt_font0 selected0 components0,
                 parse_font env (uploaded_bytes request) = inr tt_font0
                 /\ initial_selection dl (tt_best_cmap tt_font0)
                      (Dict.get (form request) "preview_string")
                    = inr selected0
                 /\ get_components_in_subsetted_text env tt_font0 selected0
                    = inr components0
                 /\ closed_selection selected components
                    = closed_selection selected0 components0)
        by (exists tt_font, selected, components; auto).
      apply emits_dispatch; intros _; repeat split; intros; exact Hnames.
Qed.

(** The closure helper is asked about the initial selection. *)
Lemma components_asked_for_initial_selection env fid request dl r log names :
  run (process_font env fid request dl) = (r, log) ->
  In (EvComponents names) log ->
  exists tt_font,
    parse_font env (uploaded_bytes request) = inr tt_font
    /\ initial_selection dl (tt_best_cmap tt_font)
         (Dict.get (form request) "preview_string") = inr names.
Proof.
  intros Hrun Hin.
  destruct (process_font_given_selection env fid request dl _ _ _ Hrun)
    as [added [-> [Hall _]]].
  rewrite Forall_forall in Hall. exact (Hall _ Hin).
Qed.

(** Each filter receives the initial selection followed by the components
    the helper reported. *)
Lemma filters_receive_closed_selection env fid request dl r log names :
  run (process_font env fid request dl) = (r, log) ->
  In names (filter_names log) ->
  exists tt_font selected components,
    parse_font env (uploaded_bytes request) = inr tt_font
    /\ initial_selection dl (tt_best_cmap tt_font)
         (Dict.get (form request) "preview_string") = inr selected
    /\ get_components_in_subsetted_text env tt_font selected = inr components
    /\ names = closed_selection selected components.
Proof.
  intros Hrun Hin.
  destruct (process_font_given_selection env fid request dl _ _ _ Hrun)
    as [added [-> [Hall _]]].
  rewrite Forall_forall in Hall. unfold filter_names in Hin.
  apply in_flat_map in Hin. destruct Hin as [ev [Hev Hin]].
  specialize (Hall ev Hev).
  destruct ev; simpl in Hin; try contradiction;
    destruct Hin as [<-|[]]; exact Hall.
Qed.

(** ** Validation of the preview string *)

Lemma process_font_parses env fid request dl r log :
  in_list fid ["rasterizer"; "rotorizer"; "extruder"] = true ->
  truthy (Dict.get (files request) "font_file") = true ->
  too_long (Dict.get (form request) "preview_string") = false ->
  run (process_font env fid request dl) = (r, log) ->
  exists rest, log = EvParse (uploaded_bytes request) :: rest.
Proof.
  intros Hfid Hfile Hlen. unfold run, process_font.
  rewrite Hfid, Hfile, Hlen. cbn [negb]. unfold bind at 1, call at 1.
  cbn [app].
  destruct (parse_font env (uploaded_bytes request)) as [e|tt_font].
  - intros [= <- <-]. now exists [].
  - intros E.
    assert (Hany : emits (Forall (fun _ => True)) (fun _ => True)
                     (process_parsed env fid request dl tt_font)).
    { apply emits_process_parsed; try exact _;
        try solve [intros; repeat constructor].
      intros selected components _ _.
      eapply emits_bind; [exact _ | apply emits_assemble; [exact _|] |].
      - intros; repeat constructor.
      - intros ufo _. apply emits_dispatch; intros; repeat constructor. }
    destruct (Hany _ _ _ E) as [added [-> _]]. now exists added.
Qed.

(** C3 (as the code has it): a preview string longer than 30 characters
    stops the request before anything outside [process_font] is called, so
    before the font is parsed, and with the error "Preview string is too
    long" when the filter is known and a font file was sent.  A preview
    string of at most 30 characters, the empty one included, passes the
    check: the font is parsed. *)
Theorem preview_string_checked_before_parsing env fid request dl s :
  Dict.get (form request) "preview_string" = Some s ->
  ((30 < List.length s)%nat ->
   exists e,
     run (process_font env fid request dl) = (inl e, [])
     /\ (in_list fid ["rasterizer"; "rotorizer"; "extruder"] = true ->
         truthy (Dict.get (files request) "font_file") = true ->
         e = AssertionError "Preview string is too long"))
  /\ ((List.length s <= 30)%nat ->
      in_list fid ["rasterizer"; "rotorizer"; "extruder"] = true ->
      truthy (Dict.get (files request) "font_file") = true ->
      exists r rest,
        run (process_font env fid request dl)
        = (r, EvParse (uploaded_bytes request) :: rest)).
Proof.
  intros Hs. split.
  - intros Hlong.
    assert (Hlen : too_long (Some s) = true).
    { unfold too_long. destruct s as [|c s]; [simpl in Hlong; lia|].
      apply andb_true_intro. split; [reflexivity|].
      apply Z.ltb_lt. lia. }
    unfold run, process_font. rewrite Hs, Hlen.
    destruct (in_list fid ["rasterizer"; "rotorizer"; "extruder"]);
      cbn [negb]; [|eexists; split; [reflexivity | discriminate]].
    destruct (truthy (Dict.get (files request) "font_file"));
      cbn [negb]; [|eexists; split; [reflexivity | discriminate]].
    eexists; split; reflexivity.
  - intros Hshort Hfid Hfile.
    destruct (run (process_font env fid request dl)) as [r log] eqn:E.
    destruct (process_font_parses env fid request dl r log Hfid Hfile)
      as [rest ->]; [|exact E|now exists r, rest].
    rewrite Hs. unfold too_long. apply andb_false_intro2.
    apply Z.ltb_ge. lia.
Qed.

Lemma preview_string_checked_before_parsing_witness :
  Dict.get (form (Demo.request (repeat 65 31))) "preview_string"
  = Some (repeat 65 31)
  /\ run (process_font Demo.env "rasterizer" (Demo.request (repeat 65 31))
                       false)
     = (inl (AssertionError "Preview string is too long"), []).
Proof.
  split; [reflexivity|].
  destruct (preview_string_checked_before_parsing Demo.env "rasterizer"
              (Demo.request (repeat 65 31)) false (repeat 65 31) eq_refl)
    as [Hlong _].
  destruct Hlong as [e [Hrun He]]; [simpl; lia|].
  rewrite (He eq_refl eq_refl) in Hrun. exact Hrun.
Defined.

(** C3 fails as stated: with an empty preview string a preview request
    parses the font and succeeds, and with no preview string at all it fails
    only after the font was parsed, with a [TypeError]. *)
Lemma empty_or_missing_preview_string_reaches_the_parser :
  let empty :=
    run (process_font Demo.env "rasterizer" (Demo.request []) false) in
  let missing :=
    run (process_font Demo.env "rasterizer" Demo.bare_request false) in
  (exists fonts, fst empty = inr (PreviewResponse fonts [] []))
  /\ filter is_parse (snd empty) = [EvParse (fs_stream Demo.upload)]
  /\ missing = (inl (TypeError "'NoneType' object is not iterable"),
                [EvParse (fs_stream Demo.upload)]).
Proof. vm_compute. repeat split. eexists. reflexivity. Qed.

(** ** The closed glyph selection *)

(** C4 (as the code has it): the closure appends the reported components to
    the initial selection, so entries already present keep their positions.
    The result has no duplicates when the initial selection has none (always
    so in download mode; in preview mode when distinct characters of the
    preview string have distinct lookups), the reported components has none,
    and no reported component was selected already. *)
Theorem closed_selection_duplicate_free cmap dl ps selected components :
  initial_selection dl cmap ps = inr selected ->
  (dl = false ->
   forall s c1 c2, ps = Some s -> In c1 s -> In c2 s ->
                   Dict.get cmap c1 = Dict.get cmap c2 -> c1 = c2) ->
  NoDup components ->
  (forall c, In c components -> ~ In (Some c) selected) ->
  NoDup (closed_selection selected components)
  /\ forall i name,
      nth_error selected i = Some name ->
      nth_error (closed_selection selected components) i = Some name.
Proof.
  intros Hsel Hinj Hcomp Hfresh. split.
  - apply closed_selection_NoDup; [|exact Hcomp|exact Hfresh].
    unfold initial_selection in Hsel. destruct dl.
    + injection Hsel as <-. apply download_selection_NoDup.
    + destruct ps as [s|]; [|discriminate]. injection Hsel as <-.
      apply preview_selection_NoDup. intros c1 c2. now apply Hinj.
  - intros i name. apply closed_selection_prefix.
Qed.

Lemma closed_selection_duplicate_free_witness :
  initial_selection false Demo.cmap (Some [193; 66])
  = inr [Some "Aacute"; Some "B"]
  /\ NoDup (closed_selection [Some "Aacute"; Some "B"] ["A"; "acutecomb"])
  /\ closed_selection [Some "Aacute"; Some "B"] ["A"; "acutecomb"]
     = [Some "Aacute"; Some "B"; Some "A"; Some "acutecomb"].
Proof.
  split; [reflexivity|]. split; [|reflexivity].
  apply (closed_selection_duplicate_free Demo.cmap false (Some [193; 66])).
  - reflexivity.
  - intros _ s c1 c2 [= <-] H1 H2.
    destruct H1 as [<-|[<-|[]]], H2 as [<-|[<-|[]]];
      try reflexivity; vm_compute; discriminate.
  - repeat constructor; simpl; intuition discriminate.
  - intros c [<-|[<-|[]]]; simpl; intuition discriminate.
Defined.

(** C4 fails as stated: U+0020 and U+00A0 both map to the glyph "space", and
    a preview of the two hands the filter that glyph twice. *)
Lemma two_characters_of_one_glyph_select_it_twice :
  let outcome :=
    run (process_font Demo.env "rasterizer" (Demo.request [32; 160]) false) in
  (exists response, fst outcome = inr response)
  /\ exists names, filter_names (snd outcome) = [names] /\ ~ NoDup names.
Proof.
  split; [vm_compute; eexists; reflexivity|].
  exists [Some "space"; Some "space"]. split; [vm_compute; reflexivity|].
  intros Hnd. inversion Hnd as [|x l Hnot _]. apply Hnot. now left.
Qed.

(** ** The saved output *)

(** C5 (as the code has it): every request that succeeds has, as its last
    two outside calls, the garbage collection and the writing of its first
    output font to the fixed path "output.ttf"; the font written is the one
    whose encoding comes first in the response. *)
Theorem successful_request_saves_output_ttf env fid request dl response log :
  run (process_font env fid request dl) = (inr response, log) ->
  exists before first text,
    log = before ++ [EvCollect; EvSave first "output.ttf"]
    /\ hd_error (response_fonts response) = Some text
    /\ encodes env first text.
Proof.
  intros Hrun. apply process_font_inr in Hrun.
  destruct Hrun as (tt_font & selected & components & ufo & output & suffixes
                    & output' & encoded & log1 & log2 & log3 & log4 & first
                    & H).
  cbv zeta in H.
  destruct H as (_ & _ & _ & _ & _ & _ & _ & _ & Henc & Hhd & Hlog & Hfonts & _).
  apply fonts_to_base64_inr in Henc.
  destruct Henc as [|font text output'' encoded' Hft Hrest]; [discriminate|].
  injection Hhd as ->.
  exists log4, first, text. split; [exact Hlog|]. split; [|exact Hft].
  rewrite Hfonts. now destruct (in_list fid ["extruder"]).
Qed.

Lemma successful_request_saves_output_ttf_witness :
  exists response log before first text,
    run (process_font Demo.env "rotorizer" (Demo.request [66]) true)
    = (inr response, log)
    /\ log = before ++ [EvCollect; EvSave first "output.ttf"]
    /\ hd_error (response_fonts response) = Some text
    /\ encodes Demo.env first text.
Proof.
  eexists _, _.
  assert (Hrun : run (process_font Demo.env "rotorizer" (Demo.request [66])
                                   true) = (_, _))
    by (vm_compute; reflexivity).
  destruct (successful_request_saves_output_ttf _ _ _ _ _ _ Hrun)
    as (before & first & text & H).
  exists before, first, text. split; [exact Hrun | exact H].
Defined.

(** C5 fails as stated: two different requests both write "output.ttf". *)
Lemma two_requests_write_the_same_file :
  saved_paths
    (snd (run (process_font Demo.env "rasterizer" (Demo.request [65]) false)))
  = ["output.ttf"]
  /\ saved_paths
       (snd (run (process_font Demo.env "rotorizer" (Demo.request [66]) true)))
     = ["output.ttf"].
Proof. vm_compute. split; reflexivity. Qed.

(** ** Download-mode selection *)

(** C6: in download mode the initial selection holds exactly the glyphs
    whose code point in the reverse character map lies between 32 and 126,
    and it is the same whatever preview string comes with the request. *)
Theorem download_selection_is_printable_ascii cmap preview_string :
  exists selected,
    initial_selection true cmap preview_string = inr selected
    /\ (forall name,
          In name selected
          <-> exists g u, name = Some g
                          /\ Dict.get (reverse_cmap cmap) g = Some u
                          /\ 32 <= u <= 126)
    /\ forall other, initial_selection true cmap other = inr selected.
Proof.
  exists (download_selection (reverse_cmap cmap)).
  split; [reflexivity|]. split; [|reflexivity].
  intros name. apply download_selection_In.
Qed.

(** In a download request the closure helper is asked about the glyphs of
    the parsed font in the range, whatever the form holds. *)
Lemma download_request_selection env fid request r log names :
  run (process_font env fid request true) = (r, log) ->
  In (EvComponents names) log ->
  exists tt_font,
    parse_font env (uploaded_bytes request) = inr tt_font
    /\ names = download_selection (reverse_cmap (tt_best_cmap tt_font)).
Proof.
  intros Hrun Hin.
  destruct (components_asked_for_initial_selection _ _ _ _ _ _ _ Hrun Hin)
    as [tt_font [Htt Hsel]].
  exists tt_font. split; [exact Htt|]. now injection Hsel as <-.
Qed.

(** When two code points share a glyph the reverse map keeps the last one:
    "space" stands under U+00A0 and falls out of the range. *)
Example download_selection_of_the_demo_font :
  download_selection (reverse_cmap Demo.cmap) = [Some "A"; Some "B"; Some "a"]
  /\ Dict.get (reverse_cmap Demo.cmap) "space" = Some 160.
Proof. vm_compute. split; reflexivity. Qed.

(** ** The preview response *)

Lemma missing_glyphs_filter cmap s :
  missing_glyphs cmap s = filter (fun c => negb (mapped cmap c)) s.
Proof.
  unfold missing_glyphs, mapped. apply filter_ext.
  intros c. now destruct (Dict.get cmap c).
Qed.

Lemma nonempty_filter {A} (f : A -> bool) l :
  nonempty (filter f l) = existsb f l.
Proof.
  induction l as [|x l IH]; simpl; [reflexivity|].
  destruct (f x); [reflexivity | exact IH].
Qed.

Lemma echoed_preview_string_filter cmap s :
  echoed_preview_string s (missing_glyphs cmap s) = filter (mapped cmap) s.
Proof.
  unfold echoed_preview_string. apply filter_ext_in. intros c Hc.
  rewrite missing_glyphs_filter.
  destruct (mapped cmap c) eqn:Hm.
  - apply negb_true_iff. apply not_true_is_false. intros Hex.
    apply existsb_exists in Hex. destruct Hex as [x [Hx Heq]].
    apply Z.eqb_eq in Heq. subst x. apply filter_In in Hx.
    rewrite Hm in Hx. destruct Hx; discriminate.
  - apply negb_false_iff. apply existsb_exists. exists c.
    split; [|apply Z.eqb_refl]. apply filter_In. rewrite Hm. auto.
Qed.



(** The example of the specification: "A" and an unmapped euro sign. *)
Example preview_with_unmapped_euro :
  fst (run (process_font Demo.env "rasterizer" (Demo.request [65; Demo.euro])
                         false))
  = inr (PreviewResponse ["RGVtbyBSYXN0ZXJpemVk"]
           [ustr_of "Your font is missing these characters: " ++ [Demo.euro]]
           [65]).
Proof. vm_compute. reflexivity. Qed.

(** ** The fonts of the response *)

(** A request that reached a collaborator has an upload with a file name,
    and the bytes the handler read are the stream of that upload. *)
Lemma process_font_upload env fid request dl r log :
  run (process_font env fid request dl) = (r, log) ->
  log <> [] ->
  exists fs,
    Dict.get (files request) "font_file" = Some fs
    /\ fs_filename fs <> ""
    /\ uploaded_bytes request = fs_stream fs.
Proof.
  unfold run, process_font, uploaded_bytes, truthy.
  destruct (in_list fid ["rasterizer"; "rotorizer"; "extruder"]); cbn [negb];
    [|intros [= _ <-] Hne; now destruct Hne].
  destruct (Dict.get (files request) "font_file") as [fs|]; cbn [negb];
    [|intros [= _ <-] Hne; now destruct Hne].
  destruct (String.eqb_spec (fs_filename fs) "") as [Heq|Hname]; cbn [negb];
    [intros [= _ <-] Hne; now destruct Hne|].
  intros _ _. now exists fs.
Qed.

Lemma renamed_all_length env suffixes f output output' :
  renamed_all env suffixes f output output' ->
  List.length output' = List.length output.
Proof.
  revert f output'. induction output as [|font rest IH];
    intros f [|font' rest']; simpl; try tauto.
  intros [_ Hrest]. f_equal. eapply IH. exact Hrest.
Qed.

Lemma Forall2_encodes_length env output encoded :
  Forall2 (encodes env) output encoded ->
  List.length encoded = List.length output.
Proof. induction 1; simpl; congruence. Qed.

(** C8: the response to an extruder request has two fonts, the encoded
    output of the filter and then the base64 text of the bytes of the
    [font_file] upload of the request, as they came (decoding the text
    gives the stream of the upload back); for the rasterizer and the
    rotorizer the fonts are the encoded outputs of the filter and nothing
    else. *)
Theorem extruder_response_ends_with_upload env fid request dl response log :
  run (process_font env fid request dl) = (inr response, log) ->
  exists output output' encoded fs,
    List.length output' = List.length output
    /\ Forall2 (encodes env) output' encoded
    /\ Dict.get (files request) "font_file" = Some fs
    /\ fs_filename fs <> ""
    /\ uploaded_bytes request = fs_stream fs
    /\ (fid = "extruder" ->
        exists ufo names angle font text upload_text,
          extrude_variable env ufo names angle = inr font
          /\ output = [font] /\ encoded = [text]
          /\ response_fonts response = [text; upload_text]
          /\ upload_text = Base64.b64encode (fs_stream fs)
          /\ Base64.b64decode upload_text = Some (fs_stream fs))
    /\ (fid = "rasterizer" ->
        exists ufo tt_font names resolution font text,
          rasterize env ufo tt_font (fs_stream fs) names resolution
          = inr font
          /\ output = [font] /\ encoded = [text]
          /\ response_fonts response = [text])
    /\ (fid = "rotorizer" ->
        exists ufo names cmap_reversed tt_font depth,
          rotorize env ufo names cmap_reversed tt_font depth = inr output
          /\ response_fonts response = encoded).
Proof.
  intros Hrun. pose proof (process_font_inr _ _ _ _ _ _ Hrun) as Hinr.
  destruct Hinr as (tt_font & selected & components & ufo & output & suffixes
                    & output' & encoded & log1 & log2 & log3 & log4 & first
                    & H).
  cbv zeta in H.
  destruct H as (_ & _ & _ & _ & _ & Hd & _ & Hr & He & _ & Hlog & Hfonts & _).
  destruct (process_font_upload _ _ _ _ _ _ Hrun) as (fs & Hfs & Hname & Hbytes).
  { rewrite Hlog. now destruct log4. }
  rewrite Hbytes in Hd, Hfonts.
  apply dispatch_inr in Hd. apply rename_outputs_inr in Hr.
  apply fonts_to_base64_inr in He.
  pose proof (renamed_all_length _ _ _ _ _ Hr) as Hlen.
  pose proof (Forall2_encodes_length _ _ _ He) as Hlen'.
  exists output, output', encoded, fs.
  split; [exact Hlen|]. split; [exact He|].
  split; [exact Hfs|]. split; [exact Hname|]. split; [exact Hbytes|].
  assert (Hone : forall font, output = [font] -> exists text, encoded = [text]).
  { intros font ->. simpl in Hlen. rewrite Hlen in Hlen'.
    destruct encoded as [|text [|? ?]]; try discriminate. now exists text. }
  destruct Hd as [[-> (n & font & Hf & Hout)]
                 |[[-> (n & Hf)]|[-> (n & ufo' & font & Hf & Hout)]]].
  - split; [discriminate | split; [intros _ | discriminate]].
    destruct (Hone font Hout) as [text ->].
    exists ufo, tt_font, (closed_selection selected components), n, font, text.
    auto.
  - split; [discriminate | split; [discriminate | intros _]].
    exists ufo, (closed_selection selected components),
      (reverse_cmap (tt_best_cmap tt_font)), tt_font, n. auto.
  - split; [intros _ | split; discriminate].
    destruct (Hone font Hout) as [text ->].
    exists ufo', (closed_selection selected components), n, font, text,
      (Base64.b64encode (fs_stream fs)).
    repeat split; try assumption; try reflexivity.
    apply Base64Facts.b64decode_b64encode.
Qed.

Lemma extruder_response_ends_with_upload_witness :
  let request := Demo.request [65; 66] in
  exists response log text upload_text,
    run (process_font Demo.env "extruder" request false) = (inr response, log)
    /\ response_fonts response = [text; upload_text]
    /\ upload_text = Base64.b64encode (fs_stream Demo.upload)
    /\ Base64.b64decode upload_text = Some (fs_stream Demo.upload).
Proof.
  intros request. eexists _, _.
  assert (Hrun : run (process_font Demo.env "extruder" request false)
                 = (inr _, _))
    by (vm_compute; reflexivity).
  destruct (extruder_response_ends_with_upload _ _ _ _ _ _ Hrun)
    as (output & output' & encoded & fs & _ & _ & Hfs & _ & _ & Hext & _).
  injection Hfs as <-.
  destruct (Hext eq_refl)
    as (ufo & names & angle & font & text & upload_text & _ & _ & _ & Hfonts
        & Hupload & Hdecode).
  exists text, upload_text. split; [exact Hrun|]. repeat split; assumption.
Defined.

(** The upload of the example is four bytes; the extruder's response ends
    with their base64 text. *)
Example extruder_preview_fonts :
  option_map response_fonts
    (match fst (run (process_font Demo.env "extruder" (Demo.request [65; 66])
                                  false)) with
     | inr response => Some response
     | inl _ => None
     end)
  = Some [Base64.b64encode (list_byte_of_string "Extruded"); "AAEAAA=="].
Proof. vm_compute. reflexivity. Qed.

(** ** Renaming *)

Lemma renamed_all_one env suffix font output' :
  suffix <> "" ->
  renamed_all env [suffix] 0 [font] output' ->
  exists font', output' = [font'] /\ renamed env font suffix font'.
Proof.
  intros Hne. destruct output' as [|font' [|? ?]]; simpl; try tauto.
  intros [[s [[= <-] Hr]] _]. exists font'. split; [reflexivity|].
  destruct (String.eqb_spec suffix ""); [contradiction | exact Hr].
Qed.

(** C9: the outputs of a request that succeeds are renamed by position with
    the suffixes of the filter, a [defcon] font by [rename_name_ufo] and a
    [TTFont] by [rename_name_ttfont], and the renamed fonts are the ones
    encoded into the response.  The rasterizer and the extruder give one
    font, renamed "Rasterized" and "Extruded"; the two fonts the rotorizer
    returns are renamed "Rotorized Underlay" and "Rotorized Overlay", in
    that order. *)
Theorem outputs_renamed_with_filter_suffixes env fid request dl response log :
  run (process_font env fid request dl) = (inr response, log) ->
  exists output output',
    Forall2 (encodes env) output'
            (firstn (List.length output') (response_fonts response))
    /\ (fid = "rasterizer" ->
        exists ufo tt_font names resolution font font',
          rasterize env ufo tt_font (uploaded_bytes request) names resolution
          = inr font
          /\ output = [font] /\ output' = [font']
          /\ renamed env font "Rasterized" font')
    /\ (fid = "extruder" ->
        exists ufo names angle font font',
          extrude_variable env ufo names angle = inr font
          /\ output = [font] /\ output' = [font']
          /\ renamed env font "Extruded" font')
    /\ (fid = "rotorizer" ->
        (exists ufo names cmap_reversed tt_font depth,
            rotorize env ufo names cmap_reversed tt_font depth = inr output)
        /\ renamed_all env ["Rotorized Underlay"; "Rotorized Overlay"] 0
                       output output'
        /\ forall underlay overlay,
            output = [underlay; overlay] ->
            exists underlay' overlay',
              output' = [underlay'; overlay']
              /\ renamed env underlay "Rotorized Underlay" underlay'
              /\ renamed env overlay "Rotorized Overlay" overlay').
Proof.
  intros Hrun. apply process_font_inr in Hrun.
  destruct Hrun as (tt_font & selected & components & ufo & output & suffixes
                    & output' & encoded & log1 & log2 & log3 & log4 & first
                    & H).
  cbv zeta in H.
  destruct H as (_ & _ & _ & _ & _ & Hd & Hs & Hr & He & _ & _ & Hfonts & _).
  apply dispatch_inr in Hd. apply rename_outputs_inr in Hr.
  apply fonts_to_base64_inr in He.
  exists output, output'. split.
  { rewrite Hfonts, <- (Forall2_encodes_length _ _ _ He).
    destruct (in_list fid ["extruder"]).
    - rewrite firstn_app, firstn_all, Nat.sub_diag. simpl.
      now rewrite app_nil_r.
    - now rewrite firstn_all. }
  destruct Hd as [[-> (n & font & Hf & ->)]
                 |[[-> (n & Hf)]|[-> (n & ufo' & font & Hf & ->)]]];
    vm_compute in Hs; injection Hs as <-.
  - split; [intros _ | split; discriminate].
    apply renamed_all_one in Hr; [|discriminate].
    destruct Hr as [font' [-> Hr]].
    exists ufo, tt_font, (closed_selection selected components), n, font, font'.
    auto.
  - split; [discriminate | split; [discriminate | intros _]].
    split; [|split; [exact Hr|]].
    + exists ufo, (closed_selection selected components),
        (reverse_cmap (tt_best_cmap tt_font)), tt_font, n. exact Hf.
    + intros underlay overlay ->.
      destruct output' as [|underlay' [|overlay' [|? ?]]]; simpl in Hr;
        try tauto.
      destruct Hr as [[s1 [[= <-] H1]] [[s2 [[= <-] H2]] _]].
      exists underlay', overlay'. simpl in H1, H2. auto.
  - split; [discriminate | split; [intros _ | discriminate]].
    apply renamed_all_one in Hr; [|discriminate].
    destruct Hr as [font' [-> Hr]].
    exists ufo', (closed_selection selected components), n, font, font'. auto.
Qed.

Lemma outputs_renamed_with_filter_suffixes_witness :
  let request := Demo.request [65] in
  exists response log underlay overlay underlay' overlay' u o,
    run (process_font Demo.env "rotorizer" request true) = (inr response, log)
    /\ renamed Demo.env underlay "Rotorized Underlay" underlay'
    /\ renamed Demo.env overlay "Rotorized Overlay" overlay'
    /\ encodes Demo.env underlay' u /\ encodes Demo.env overlay' o
    /\ response_fonts response = [u; o].
Proof.
  intros request. eexists _, _.
  assert (Hrun : run (process_font Demo.env "rotorizer" request true)
                 = (inr _, _))
    by (vm_compute; reflexivity).
  destruct (outputs_renamed_with_filter_suffixes _ _ _ _ _ _ Hrun)
    as (output & output' & Henc & _ & _ & Hrot).
  destruct (Hrot eq_refl)
    as [(ufo & names & cr & tt_font & depth & Hcall) [_ Hpair]].
  vm_compute in Hcall. injection Hcall as <-.
  destruct (Hpair _ _ eq_refl) as (underlay' & overlay' & -> & Hu & Ho).
  simpl in Henc.
  inversion Henc as [|? ? ? ? Hu' Hrest]; subst.
  inversion Hrest as [|? ? ? ? Ho' _]; subst.
  eexists _, _, underlay', overlay', _, _.
  split; [exact Hrun|]. split; [exact Hu|]. split; [exact Ho|].
  split; [exact Hu'|]. split; [exact Ho'|]. reflexivity.
Defined.

(** ** The extruder: widths and kerning *)

Lemma in_names_In name names : in_names name names = true <-> In name names.
Proof.
  unfold in_names. rewrite existsb_exists. split.
  - intros [x [Hx Heq]]. unfold eqb in Heq.
    destruct (eq_dec name x); [now subst | discriminate].
  - intros Hin. exists name. split; [exact Hin|]. unfold eqb.
    destruct (eq_dec name name); congruence.
Qed.

(** The widths handed to the kerning extraction are those of [hmtx], for the
    glyphs to process and no other. *)
Lemma restricted_widths_In tt_font names g w :
  In (g, w) (restricted_widths tt_font names) ->
  In (Some g) names
  /\ exists metric, In (g, metric) (tt_hmtx tt_font) /\ w = fst metric.
Proof.
  unfold restricted_widths. intros Hin.
  apply DictFacts.In_update in Hin. destruct Hin as [[]|Hin].
  apply in_map_iff in Hin. destruct Hin as [[g' metric] [Heq Hin]].
  simpl in Heq. injection Heq as -> <-.
  apply filter_In in Hin. destruct Hin as [Hin Hn]. simpl in Hn.
  split; [now apply in_names_In | now exists metric].
Qed.

Lemma restricted_widths_keys tt_font names g :
  In g (Dict.keys (restricted_widths tt_font names))
  <-> In (Some g) names /\ In g (Dict.keys (tt_hmtx tt_font)).
Proof.
  unfold restricted_widths. rewrite DictFacts.In_keys_update. simpl.
  unfold Dict.keys. rewrite map_map. simpl. rewrite !in_map_iff. split.
  - intros [[]|[[g' metric] [<- Hin]]]. apply filter_In in Hin.
    destruct Hin as [Hin Hn]. simpl in *.
    split; [now apply in_names_In | now exists (g', metric)].
  - intros [Hn [[g' metric] [<- Hin]]]. right. exists (g', metric).
    split; [reflexivity|]. apply filter_In.
    split; [exact Hin | now apply in_names_In].
Qed.

Lemma app_eq_app_cons {A} (a b before after : list A) x :
  a ++ b = before ++ x :: after ->
  (exists l, a = before ++ x :: l /\ after = l ++ b)
  \/ (exists l, before = a ++ l /\ b = l ++ x :: after).
Proof.
  revert before. induction a as [|y a IH]; intros before Heq; simpl in *.
  - right. now exists before.
  - destruct before as [|z before]; simpl in Heq; injection Heq as <- Heq.
    + left. now exists a.
    + destruct (IH _ Heq) as [[l [-> ->]]|[l [-> ->]]].
      * left. now exists l.
      * right. now exists l.
Qed.

(** A value a step returns is a value of that step. *)
Lemma emits_returned {A} (P : list event -> Prop) (Q : A -> Prop) (m : M A) :
  emits P Q m ->
  emits P (fun x => exists log log', m log = (inr x, log')) m.
Proof.
  intros Hm log r log' E. destruct (Hm _ _ _ E) as [added [-> [Hp _]]].
  exists added. split; [reflexivity|]. split; [exact Hp|].
  intros x ->. now exists log, (log ++ added).
Qed.

Section Extruder.
Variable env : Collaborators.
Variable request : Request.
Variable dl : bool.

#[local] Instance Pieces_kerning_before_extrude :
  Pieces (kerning_before_extrude env request dl).
Proof.
  split.
  - intros [|? before] ? ? ? ? Heq; discriminate.
  - intros a b Ha Hb before ufo names angle after Heq.
    apply app_eq_app_cons in Heq.
    destruct Heq as [[l [Heq _]]|[l [-> Heq]]].
    + exact (Ha _ _ _ _ _ Heq).
    + destruct (Hb _ _ _ _ _ Heq)
        as (earlier & tt_font & selected & components & ufo0 & ufo1
            & extracted & H).
      cbv zeta in H.
      destruct H as (H1 & H2 & H3 & H4 & H5 & -> & H7 & H8 & H9).
      exists (a ++ earlier), tt_font, selected, components, ufo0, ufo1,
        extracted.
      cbv zeta. rewrite app_assoc. auto 12.
Qed.

Lemma other_call_kerning_before_extrude ev :
  match ev with EvExtrude _ _ _ => False | _ => True end ->
  kerning_before_extrude env request dl [ev].
Proof.
  intros Hev [|? [|? before]] ufo names angle after Heq;
    try discriminate.
  simpl in Heq. injection Heq as -> _. contradiction.
Qed.

Lemma dispatch_kerning_before_extrude fid tt_font selected components ufo :
  parse_font env (uploaded_bytes request) = inr tt_font ->
  initial_selection dl (tt_best_cmap tt_font)
    (Dict.get (form request) "preview_string") = inr selected ->
  get_components_in_subsetted_text env tt_font selected = inr components ->
  (exists log0 log1,
      assemble env fid tt_font (reverse_cmap (tt_best_cmap tt_font)) dl
        (closed_selection selected components) log0
      = (inr ufo, log1)) ->
  emits (kerning_before_extrude env request dl) (fun _ => True)
    (dispatch env fid request (uploaded_bytes request) tt_font
       (tt_best_cmap tt_font) (reverse_cmap (tt_best_cmap tt_font))
       (Dict.get (form request) "preview_string")
       (closed_selection selected components) ufo).
Proof.
  intros Htt Hsel Hcomp Hufo. unfold dispatch.
  destruct (fid =? "rasterizer")%string.
  { bind_any; [apply emits_form_int; exact _|]. intros n _.
    bind_any; [|intros; now rule emits_ret].
    rule emits_call; [|auto]. now apply other_call_kerning_before_extrude. }
  destruct (fid =? "rotorizer")%string.
  { bind_any; [apply emits_form_int; exact _|]. intros n _.
    rule emits_call; [|auto]. now apply other_call_kerning_before_extrude. }
  destruct (String.eqb_spec fid "extruder") as [->|_];
    [|now rule emits_raise].
  bind_any; [apply emits_form_int; exact _|]. intros angle _.
  intros log r log'. unfold bind, call, ret.
  destruct (extractOpenTypeInfo env tt_font ufo) as [e|ufo1] eqn:Hinfo.
  { intros [= <- <-]. eexists. split; [reflexivity|].
    split; [|discriminate]. now apply other_call_kerning_before_extrude. }
  destruct (extract_kerning_hb env _ _ _ _) as [e|extracted] eqn:Hk.
  { intros [= <- <-]. exists [EvExtractInfo ufo; EvKerning (uploaded_bytes request)
      (restricted_widths tt_font (closed_selection selected components))
      (Dict.get (form request) "preview_string") (tt_best_cmap tt_font)].
    rewrite <- app_assoc. split; [reflexivity|]. split; [|discriminate].
    intros [|? [|? [|? before]]] ? ? ? ? Heq; discriminate. }
  set (ufo2 := with_kerning ufo1 (Dict.update (kerning ufo1) extracted)).
  intros E.
  exists [EvExtractInfo ufo; EvKerning (uploaded_bytes request)
      (restricted_widths tt_font (closed_selection selected components))
      (Dict.get (form request) "preview_string") (tt_best_cmap tt_font);
      EvExtrude ufo2 (closed_selection selected components) angle].
  split.
  { destruct (extrude_variable env ufo2 _ angle); injection E as <- <-;
      now rewrite <- !app_assoc. }
  split; [|auto].
  intros [|? [|? [|? [|? before]]]] u names a after Heq; try discriminate.
  simpl in Heq. injection Heq as <- <- <- <- <- _.
  exists [], tt_font, selected, components, ufo, ufo1, extracted.
  cbv zeta. auto 12.
Qed.

Lemma process_font_kerning_before_extrude fid :
  emits (kerning_before_extrude env request dl) (fun _ => True)
        (process_font env fid request dl).
Proof.
  apply emits_process_font; try exact _;
    try solve [intros; now apply other_call_kerning_before_extrude].
  intros tt_font selected components _ Htt Hsel Hcomp.
  eapply emits_bind;
    [exact _
    | apply emits_returned with (Q := fun _ => True);
      eapply emits_weaken; [apply emits_assemble; [exact _|] | auto] |].
  - intros _ table name. now apply other_call_kerning_before_extrude.
  - intros ufo Hufo. now apply dispatch_kerning_before_extrude.
Qed.

End Extruder.

(** C10: in preview and in download mode, each call of the extruder comes
    right after [extractOpenTypeInfo] and the kerning extraction, in that
    order.  [extractOpenTypeInfo] received the minimal font the glyph loop
    assembled for the glyphs to process.  The kerning extraction received
    the bytes of the uploaded [font_file], the advance widths of [hmtx]
    restricted to the glyphs to process, the preview string of the request
    as it came (absent when the request has none) and the character map.
    The font the extruder receives is the font [extractOpenTypeInfo]
    returned, its glyphs and names untouched, whose kerning table is its
    own updated with the extracted pairs: every extracted pair is in it,
    and the pairs it had before are kept where the extraction returned
    none. *)
Theorem extruder_gets_widths_and_kerning env fid request dl r log
        before ufo names angle after :
  run (process_font env fid request dl) = (r, log) ->
  log = before ++ EvExtrude ufo names angle :: after ->
  exists earlier tt_font selected components ufo0 ufo1 extracted fs,
    let bytes := uploaded_bytes request in
    let content := Dict.get (form request) "preview_string" in
    let cmap := tt_best_cmap tt_font in
    let widths := restricted_widths tt_font names in
    parse_font env bytes = inr tt_font
    /\ initial_selection dl cmap content = inr selected
    /\ get_components_in_subsetted_text env tt_font selected = inr components
    /\ names = closed_selection selected components
    /\ Dict.get (files request) "font_file" = Some fs
    /\ bytes = fs_stream fs
    /\ (exists log0 log1,
          assemble env "extruder" tt_font (reverse_cmap cmap) dl names log0
          = (inr ufo0, log1))
    /\ before
       = earlier ++ [EvExtractInfo ufo0;
                     EvKerning (fs_stream fs) widths content cmap]
    /\ extractOpenTypeInfo env tt_font ufo0 = inr ufo1
    /\ extract_kerning_hb env (fs_stream fs) widths content cmap
       = inr extracted
    /\ (forall g, In g (Dict.keys widths)
                  <-> In (Some g) names /\ In g (Dict.keys (tt_hmtx tt_font)))
    /\ (forall g w, In (g, w) widths ->
                    exists metric,
                      In (g, metric) (tt_hmtx tt_font) /\ w = fst metric)
    /\ unitsPerEm ufo = unitsPerEm ufo1
    /\ familyName ufo = familyName ufo1
    /\ styleName ufo = styleName ufo1
    /\ glyphs ufo = glyphs ufo1
    /\ kerning ufo = Dict.update (kerning ufo1) extracted
    /\ forall pair,
        Dict.get (kerning ufo) pair
        = match Dict.get (rev extracted) pair with
          | Some value => Some value
          | None => Dict.get (kerning ufo1) pair
          end.
Proof.
  intros Hrun Hlog.
  destruct (process_font_upload _ _ _ _ _ _ Hrun) as (fs & Hfs & _ & Hbytes).
  { rewrite Hlog. now destruct before. }
  destruct (process_font_kerning_before_extrude env request dl fid _ _ _ Hrun)
    as [added [Heq [Hk _]]].
  simpl in Heq. subst added.
  destruct (Hk _ _ _ _ _ Hlog)
    as (earlier & tt_font & selected & components & ufo0 & ufo1 & extracted
        & H).
  cbv zeta in H.
  destruct H as (H1 & H2 & H3 & H4 & H5 & H6 & H7 & H8 & ->).
  exists earlier, tt_font, selected, components, ufo0, ufo1, extracted, fs.
  cbv zeta. rewrite <- Hbytes.
  repeat (split; [assumption || reflexivity|]).
  split; [intros g; apply restricted_widths_keys|].
  split; [intros g w Hin; now apply restricted_widths_In in Hin|].
  repeat (split; [reflexivity|]).
  intros pair. simpl. apply DictFacts.get_update.
Qed.

Lemma extruder_gets_widths_and_kerning_witness :
  let request := Demo.bare_request in
  exists r log before ufo names angle after,
    run (process_font Demo.env "extruder" request true) = (r, log)
    /\ log = before ++ EvExtrude ufo names angle :: after
    /\ exists earlier tt_font selected components ufo0 ufo1 extracted fs,
        let bytes := uploaded_bytes request in
        let content := Dict.get (form request) "preview_string" in
        let cmap := tt_best_cmap tt_font in
        let widths := restricted_widths tt_font names in
        parse_font Demo.env bytes = inr tt_font
        /\ initial_selection true cmap content = inr selected
        /\ get_components_in_subsetted_text Demo.env tt_font selected
           = inr components
        /\ names = closed_selection selected components
        /\ Dict.get (files request) "font_file" = Some fs
        /\ bytes = fs_stream fs
        /\ (exists log0 log1,
              assemble Demo.env "extruder" tt_font (reverse_cmap cmap) true
                names log0
              = (inr ufo0, log1))
        /\ before
           = earlier ++ [EvExtractInfo ufo0;
                         EvKerning (fs_stream fs) widths content cmap]
        /\ extractOpenTypeInfo Demo.env tt_font ufo0 = inr ufo1
        /\ extract_kerning_hb Demo.env (fs_stream fs) widths content cmap
           = inr extracted
        /\ (forall g, In g (Dict.keys widths)
                      <-> In (Some g) names
                          /\ In g (Dict.keys (tt_hmtx tt_font)))
        /\ (forall g w, In (g, w) widths ->
                        exists metric,
                          In (g, metric) (tt_hmtx tt_font) /\ w = fst metric)
        /\ unitsPerEm ufo = unitsPerEm ufo1
        /\ familyName ufo = familyName ufo1
        /\ styleName ufo = styleName ufo1
        /\ glyphs ufo = glyphs ufo1
        /\ kerning ufo = Dict.update (kerning ufo1) extracted
        /\ forall pair,
            Dict.get (kerning ufo) pair
            = match Dict.get (rev extracted) pair with
              | Some value => Some value
              | None => Dict.get (kerning ufo1) pair
              end.
Proof.
  intros request. eexists _, _.
  assert (Hrun : run (process_font Demo.env "extruder" request true) = (_, _))
    by (vm_compute; reflexivity).
  match type of Hrun with
  | _ = (_, ?log) =>
      assert (Hin : exists ufo names angle, In (EvExtrude ufo names angle) log)
        by (eexists _, _, _; do 7 right; left; reflexivity)
  end.
  destruct Hin as (ufo & names & angle & Hin).
  apply in_split in Hin. destruct Hin as (before & after & Hlog).
  exists before, ufo, names, angle, after.
  split; [exact Hrun|]. split; [exact Hlog|].
  exact (extruder_gets_widths_and_kerning _ _ _ _ _ _ _ _ _ _ _ Hrun Hlog).
Defined.

(** The font the extruder is given in the example: the glyphs of the glyph
    loop, each with its width, and the extracted pair in the kerning. *)
Example extruder_receives_glyphs_and_kerning :
  flat_map (fun ev =>
              match ev with
              | EvExtrude ufo _ _ =>
                  [(map (fun kv => (fst kv, g_width (snd kv))) (glyphs ufo),
                    kerning ufo)]
              | _ => []
              end)
           (snd (run (process_font Demo.env "extruder" (Demo.request [65; 66])
                                   false)))
  = [([(Some "A", Some 600); (Some "B", Some 620)], [(("A", "B"), -40)])].
Proof. vm_compute. reflexivity. Qed.

(** A download request to the extruder with no preview string: the kerning
    extraction is given [None] as its content. *)
Example download_extruder_kerning_content :
  filter (fun ev => match ev with EvKerning _ _ _ _ => true | _ => false end)
         (snd (run (process_font Demo.env "extruder" Demo.bare_request true)))
  = [EvKerning (fs_stream Demo.upload)
       [("A", 600); ("B", 620); ("a", 520)] None Demo.cmap].
Proof. vm_compute. reflexivity. Qed.

(** ** Unmapped characters of the preview string *)

(** Every character of the preview string is looked up, and the lookup,
    found or not, is what the closure helper and the filter are given. *)
Lemma preview_request_selects_every_lookup env fid request r log names s char :
  run (process_font env fid request false) = (r, log) ->
  In names (filter_names log) ->
  Dict.get (form request) "preview_string" = Some s ->
  In char s ->
  exists tt_font,
    parse_font env (uploaded_bytes request) = inr tt_font
    /\ In (Dict.get (tt_best_cmap tt_font) char) names.
Proof.
  intros Hrun Hin Hs Hchar.
  destruct (filters_receive_closed_selection _ _ _ _ _ _ _ Hrun Hin)
    as (tt_font & selected & components & Htt & Hsel & _ & ->).
  exists tt_font. split; [exact Htt|].
  rewrite Hs in Hsel. injection Hsel as <-.
  unfold closed_selection. apply in_or_app. left.
  now apply preview_selection_lookup.
Qed.

(** An extruder preview answers only when every character of the preview
    string is mapped: with an unmapped one the glyph loop asks [hmtx] for
    the metrics of [None]. *)
Lemma extruder_preview_answers_only_if_all_mapped env request response log :
  run (process_font env "extruder" request false) = (inr response, log) ->
  exists tt_font s,
    parse_font env (uploaded_bytes request) = inr tt_font
    /\ Dict.get (form request) "preview_string" = Some s
    /\ forall char, In char s -> mapped (tt_best_cmap tt_font) char = true.
Proof.
  intros Hrun. apply process_font_inr in Hrun.
  destruct Hrun as (tt_font & selected & components & ufo & output & suffixes
                    & output' & encoded & log1 & log2 & log3 & log4 & first
                    & H).
  cbv zeta in H.
  destruct H as (_ & Htt & Hsel & _ & Ha & _).
  unfold initial_selection in Hsel.
  destruct (Dict.get (form request) "preview_string") as [s|]; [|discriminate].
  injection Hsel as <-.
  exists tt_font, s. repeat split; try assumption.
  intros char Hchar.
  assert (Hloop := emits_assemble env (Forall (fun _ => True)) "extruder"
                     tt_font (reverse_cmap (tt_best_cmap tt_font)) false
                     (closed_selection
                        (preview_selection (tt_best_cmap tt_font) s)
                        components)
                     (fun _ _ _ => Forall_cons _ I (Forall_nil _))).
  destruct (Hloop _ _ _ Ha) as [added [_ [_ Hglyphs]]].
  specialize (Hglyphs ufo eq_refl (Dict.get (tt_best_cmap tt_font) char)).
  destruct Hglyphs as [g [_ Hfull]].
  { unfold closed_selection. apply in_or_app. left.
    now apply preview_selection_lookup. }
  simpl in Hfull. destruct Hfull as (width & outline & Hw & _).
  unfold mapped. destruct (Dict.get (tt_best_cmap tt_font) char);
    [reflexivity | discriminate].
Qed.

(** C1 (the code departs from it): for the preview string "A" followed by a
    euro sign the font does not map, the selection is the glyph "A" and
    [None], the lookup of the euro sign.  The extruder then fails on it:
    [hmtx] has no metrics under [None]. *)
Theorem unmapped_character_is_selected_as_None :
  (exists selected,
      initial_selection false Demo.cmap (Some [65; Demo.euro]) = inr selected
      /\ In None selected /\ In (Some "A") selected
      /\ List.length selected = 2%nat)
  /\ (exists names,
         filter_names
           (snd (run (process_font Demo.env "rasterizer"
                                   (Demo.request [65; Demo.euro]) false)))
         = [names]
         /\ In None names)
  /\ fst (run (process_font Demo.env "extruder"
                            (Demo.request [65; Demo.euro]) false))
     = inl (KeyError None).
Proof.
  split; [|split].
  - eexists. split; [vm_compute; reflexivity|]. simpl. auto.
  - eexists. split; [vm_compute; reflexivity|]. simpl. auto.
  - vm_compute. reflexivity.
Qed.

(** ** The examples of the specification, on the demo font *)

(** Rasterizer, preview "AB", resolution 50: one font, no warning, the
    string echoed. *)
Example rasterizer_preview_AB :
  let outcome :=
    run (process_font Demo.env "rasterizer"
           (Demo.request_with [65; 66] [("resolution", ustr_of "50")]) false) in
  fst outcome = inr (PreviewResponse ["RGVtbyBSYXN0ZXJpemVk"] [] [65; 66])
  /\ exists ufo, In (EvRasterize ufo [Some "A"; Some "B"] 50) (snd outcome).
Proof.
  split; [vm_compute; reflexivity|].
  eexists. vm_compute. do 2 right. left. reflexivity.
Qed.

(** Rotorizer, download: two fonts, underlay then overlay. *)
Example rotorizer_download :
  fst (run (process_font Demo.env "rotorizer" Demo.bare_request true))
  = inr (DownloadResponse
           [Base64.b64encode (list_byte_of_string "Demo Rotorized Underlay");
            Base64.b64encode (list_byte_of_string "Demo Rotorized Overlay")]).
Proof. vm_compute. reflexivity. Qed.

(** Extruder, preview: the extruded font, then the upload. *)
Example extruder_preview :
  fst (run (process_font Demo.env "extruder" (Demo.request [65; 66]) false))
  = inr (PreviewResponse
           [Base64.b64encode (list_byte_of_string "Extruded");
            Base64.b64encode (fs_stream Demo.upload)]
           [] [65; 66]).
Proof. vm_compute. reflexivity. Qed.

(** An unknown filter is turned away before the upload is looked at. *)
Example unknown_filter :
  run (process_font Demo.env "blur" (Demo.request [65]) false)
  = (inl (NotFound "Filter not found"), []).
Proof. reflexivity. Qed.

(** * Further properties of [app.py] *)

(** ** [is_in_ranges] *)

(** X1: the loop of [is_in_ranges] answers [True] exactly for the code points
    that lie in one of the ranges of the list, bounds included. *)
Theorem is_in_ranges_from_spec rs code_point :
  is_in_ranges_from rs code_point = true
  <-> exists start stop,
        In (start, stop) rs /\ start <= code_point <= stop.
Proof.
  induction rs as [|[start stop] rs IH]; simpl.
  - split; [discriminate | intros (? & ? & [] & _)].
  - destruct ((start <=? code_point) && (code_point <=? stop)) eqn:Hin.
    + split; [intros _ | reflexivity].
      apply andb_true_iff in Hin. exists start, stop.
      split; [now left | lia].
    + rewrite IH. split.
      * intros (a & b & Hab & Hr). exists a, b. split; [now right | exact Hr].
      * intros (a & b & [Heq|Hab] & Hr); [|now exists a, b].
        injection Heq as <- <-. apply andb_false_iff in Hin.
        destruct Hin as [H|H]; apply Z.leb_gt in H; lia.
Qed.

(** ** The reverse character map *)

Lemma get_swapped (cmap : Dict.t Z string) g :
  Dict.get (map (fun kv => (snd kv, fst kv)) cmap) g
  = option_map fst (find (fun kv => eqb g (snd kv)) cmap).
Proof.
  induction cmap as [|[u g'] cmap IH]; simpl; [reflexivity|].
  unfold eqb. destruct (eq_dec g g'); [reflexivity | exact IH].
Qed.

(** X2: the reverse character map gives a glyph the code point of the last
    entry of the character map that names it, and has no entry for a glyph
    the character map never names. *)
Theorem reverse_cmap_last_code_point_wins cmap g :
  Dict.get (reverse_cmap cmap) g
  = option_map fst (find (fun kv => eqb g (snd kv)) (rev cmap)).
Proof.
  rewrite reverse_cmap_update, DictFacts.get_update. simpl.
  rewrite <- map_rev, get_swapped.
  now destruct (find _ (rev cmap)).
Qed.

(** X3: when the code points of the character map are distinct, as the keys of
    a dictionary are, a code point found in the reverse map leads back to
    its glyph through the character map. *)
Theorem reverse_then_forward_lookup cmap g u :
  NoDup (Dict.keys cmap) ->
  Dict.get (reverse_cmap cmap) g = Some u ->
  Dict.get cmap u = Some g.
Proof.
  intros Hnd Hg. apply DictFacts.In_get; [exact Hnd|].
  now apply reverse_cmap_sound.
Qed.

Lemma reverse_then_forward_lookup_witness :
  NoDup (Dict.keys Demo.cmap)
  /\ Dict.get (reverse_cmap Demo.cmap) "space" = Some 160
  /\ Dict.get Demo.cmap 160 = Some "space".
Proof.
  assert (Hnd : NoDup (Dict.keys Demo.cmap)).
  { repeat constructor; simpl; intuition discriminate. }
  split; [exact Hnd|]. split; [reflexivity|].
  apply (reverse_then_forward_lookup Demo.cmap "space" 160 Hnd).
  reflexivity.
Defined.

(** ** The checks before the font is opened *)

(** X4: a request makes no outside call exactly when lines 60-69 turn it away,
    and the error raised is the first that applies: unknown filter, then
    missing file, then preview string too long. *)
Theorem rejected_without_any_call env fid request dl r log :
  run (process_font env fid request dl) = (r, log) ->
  (log = [] <-> rejected fid request = true)
  /\ (rejected fid request = true ->
      r = inl
            (if negb (in_list fid ["rasterizer"; "rotorizer"; "extruder"])
             then NotFound "Filter not found"
             else if negb (truthy (Dict.get (files request) "font_file"))
                  then AssertionError "Font file is required"
                  else AssertionError "Preview string is too long")).
Proof.
  intros Hrun. unfold rejected.
  destruct (in_list fid ["rasterizer"; "rotorizer"; "extruder"]) eqn:Hfid.
  2:{ unfold run, process_font in Hrun. rewrite Hfid in Hrun.
      injection Hrun as <- <-. simpl. repeat split; reflexivity. }
  destruct (truthy (Dict.get (files request) "font_file")) eqn:Hfile.
  2:{ unfold run, process_font in Hrun. rewrite Hfid, Hfile in Hrun.
      injection Hrun as <- <-. simpl. repeat split; reflexivity. }
  destruct (too_long (Dict.get (form request) "preview_string")) eqn:Hlong.
  { unfold run, process_font in Hrun. rewrite Hfid, Hfile, Hlong in Hrun.
    injection Hrun as <- <-. simpl. repeat split; reflexivity. }
  destruct (process_font_parses env fid request dl r log Hfid Hfile Hlong Hrun)
    as [rest ->].
  simpl. repeat split; discriminate.
Qed.

Lemma rejected_without_any_call_witness :
  exists r log,
    run (process_font Demo.env "rasterizer"
           {| files := []; form := [("preview_string", repeat 65 40)] |} true)
    = (r, log)
    /\ log = []
    /\ r = inl (AssertionError "Font file is required").
Proof.
  eexists _, _.
  assert (Hrun : run (process_font Demo.env "rasterizer"
                        {| files := [];
                           form := [("preview_string", repeat 65 40)] |} true)
                 = (_, _)) by reflexivity.
  destruct (rejected_without_any_call _ _ _ _ _ _ Hrun) as [Hlog Hr].
  split; [exact Hrun|]. split; [reflexivity|]. exact (Hr eq_refl).
Defined.

(** ** The echoed preview string *)

Lemma filter_all {A} (f : A -> bool) l :
  filter f l = l <-> forallb f l = true.
Proof.
  induction l as [|x l IH]; simpl; [tauto|].
  destruct (f x) eqn:Hx; simpl.
  - rewrite <- IH. split; [now intros [= ->] | now intros ->].
  - split; [|discriminate]. intros Heq.
    pose proof (filter_length_le f l) as Hle. rewrite Heq in Hle.
    simpl in Hle. lia.
Qed.

Lemma existsb_negb {A} (f : A -> bool) l :
  existsb (fun x => negb (f x)) l = negb (forallb f l).
Proof.
  induction l as [|x l IH]; simpl; [reflexivity|].
  rewrite IH. now destruct (f x).
Qed.

(** X5: a preview response echoes the preview string as it came exactly when
    it carries no warning; otherwise the echo is shorter, and it never holds
    a character that was not sent. *)
Theorem echo_unchanged_iff_no_warning env fid request fonts warnings echoed log :
  run (process_font env fid request false)
  = (inr (PreviewResponse fonts warnings echoed), log) ->
  exists s,
    Dict.get (form request) "preview_string" = Some s
    /\ (warnings = [] <-> echoed = s)
    /\ (warnings <> [] -> (List.length echoed < List.length s)%nat)
    /\ forall char, In char echoed -> In char s.
Proof.
  intros Hrun. apply process_font_inr in Hrun.
  destruct Hrun as (tt_font & selected & components & ufo & output & suffixes
                    & output' & encoded & log1 & log2 & log3 & log4 & first
                    & H).
  cbv zeta in H.
  destruct H as (_ & _ & _ & _ & _ & _ & _ & _ & _ & _ & _ & _ & s & Hs & Hresp).
  injection Hresp as -> ->. exists s. split; [exact Hs|].
  rewrite echoed_preview_string_filter. unfold warnings_for.
  rewrite missing_glyphs_filter, nonempty_filter.
  set (cmap := tt_best_cmap tt_font).
  clear Hs. rewrite existsb_negb.
  pose proof (filter_all (mapped cmap) s) as Hfa.
  pose proof (filter_length_le (mapped cmap) s) as Hle.
  assert (Hsub : forall char, In char (filter (mapped cmap) s) -> In char s)
    by (intros char Hin; now apply filter_In in Hin).
  destruct (forallb (mapped cmap) s); simpl.
  - split; [split; [intros _; now apply Hfa | reflexivity]|].
    split; [congruence | exact Hsub].
  - split; [split; [discriminate | intros Heq; apply Hfa in Heq; discriminate]|].
    split; [|exact Hsub].
    intros _.
    destruct (Nat.eq_dec (List.length (filter (mapped cmap) s))
                         (List.length s)) as [Heq|]; [|lia].
    exfalso. assert (Hf : filter (mapped cmap) s = s).
    { clear Hfa Hsub Hle. induction s as [|c s IH]; [reflexivity|].
      simpl in *. destruct (mapped cmap c); simpl in *.
      - f_equal. apply IH; lia.
      - pose proof (filter_length_le (mapped cmap) s). lia. }
    apply Hfa in Hf. discriminate.
Qed.

Lemma echo_unchanged_iff_no_warning_witness :
  exists fonts warnings echoed log s,
    run (process_font Demo.env "rotorizer" (Demo.request [66; Demo.euro; 65])
                      false)
    = (inr (PreviewResponse fonts warnings echoed), log)
    /\ Dict.get (form (Demo.request [66; Demo.euro; 65])) "preview_string"
       = Some s
    /\ (warnings = [] <-> echoed = s)
    /\ (warnings <> [] -> (List.length echoed < List.length s)%nat)
    /\ forall char, In char echoed -> In char s.
Proof.
  eexists _, _, _, _.
  assert (Hrun : run (process_font Demo.env "rotorizer"
                        (Demo.request [66; Demo.euro; 65]) false)
                 = (inr (PreviewResponse _ _ _), _))
    by (vm_compute; reflexivity).
  destruct (echo_unchanged_iff_no_warning _ _ _ _ _ _ _ Hrun) as [s H].
  exists s. split; [exact Hrun | exact H].
Defined.

(** ** The number of fonts a filter may return *)

Lemma renamed_all_bound env suffixes f output output' :
  renamed_all env suffixes f output output' ->
  output = [] \/ (f + List.length output <= List.length suffixes)%nat.
Proof.
  revert f output'. induction output as [|font rest IH];
    intros f [|font' rest']; simpl; try tauto.
  intros [[suffix [Hs _]] Hrest]. right.
  assert (Hf : (f < List.length suffixes)%nat)
    by (apply nth_error_Some; congruence).
  destruct (IH _ _ Hrest) as [->|Hle]; simpl; lia.
Qed.

(** X6: a rotorizer request answers only when the filter returned one or two
    fonts: with none [output[0]] fails, with three or more the suffix table
    has no entry for the third.  The response then has as many fonts as the
    filter returned. *)
Theorem rotorizer_answers_with_one_or_two_fonts env request dl response log :
  run (process_font env "rotorizer" request dl) = (inr response, log) ->
  exists ufo names cmap_reversed tt_font depth output,
    rotorize env ufo names cmap_reversed tt_font depth = inr output
    /\ (1 <= List.length output <= 2)%nat
    /\ List.length (response_fonts response) = List.length output.
Proof.
  intros Hrun. apply process_font_inr in Hrun.
  destruct Hrun as (tt_font & selected & components & ufo & output & suffixes
                    & output' & encoded & log1 & log2 & log3 & log4 & first
                    & H).
  cbv zeta in H.
  destruct H as (_ & _ & _ & _ & _ & Hd & Hs & Hr & He & Hhd & _ & Hfonts & _).
  apply dispatch_inr in Hd. apply rename_outputs_inr in Hr.
  apply fonts_to_base64_inr in He.
  destruct Hd as [[Hf _]|[[_ (depth & Hrot)]|[Hf _]]]; try discriminate.
  vm_compute in Hs. injection Hs as <-.
  pose proof (renamed_all_length _ _ _ _ _ Hr) as Hlen.
  pose proof (Forall2_encodes_length _ _ _ He) as Hlen'.
  exists ufo, (closed_selection selected components),
    (reverse_cmap (tt_best_cmap tt_font)), tt_font, depth, output.
  split; [exact Hrot|]. split.
  - destruct (renamed_all_bound _ _ _ _ _ Hr) as [->|Hle].
    + destruct output'; [discriminate | simpl in Hlen; discriminate].
    + simpl in Hle. destruct output; [|simpl in *; lia].
      destruct output'; [discriminate | simpl in Hlen; discriminate].
  - rewrite Hfonts. simpl. congruence.
Qed.

Lemma rotorizer_answers_with_one_or_two_fonts_witness :
  exists response log ufo names cmap_reversed tt_font depth output,
    run (process_font Demo.env "rotorizer" (Demo.request [65]) false)
    = (inr response, log)
    /\ rotorize Demo.env ufo names cmap_reversed tt_font depth = inr output
    /\ (1 <= List.length output <= 2)%nat
    /\ List.length (response_fonts response) = List.length output.
Proof.
  eexists _, _.
  assert (Hrun : run (process_font Demo.env "rotorizer" (Demo.request [65])
                                   false) = (inr _, _))
    by (vm_compute; reflexivity).
  destruct (rotorizer_answers_with_one_or_two_fonts _ _ _ _ _ Hrun)
    as (ufo & names & cr & tt_font & depth & output & H).
  exists ufo, names, cr, tt_font, depth, output.
  split; [exact Hrun | exact H].
Defined.

(** ** The minimal font *)

Section MinimalFont.
Variable env : Collaborators.
Context (P : list event -> Prop) `{Pieces P}.

Lemma font_holds_put cmap_reversed units family style done ufo name g :
  font_holds cmap_reversed units family style done ufo ->
  g_unicode g = unicode_of cmap_reversed name ->
  font_holds cmap_reversed units family style (done ++ [name])
             (put_glyph ufo name g).
Proof.
  intros (Hu & Hf & Hs & Hk & Hnd & Hkeys & Hget) Hg.
  unfold font_holds. simpl. repeat split; try assumption.
  - now apply DictFacts.NoDup_keys_set.
  - rewrite DictFacts.In_keys_set, Hkeys, in_app_iff. simpl. intuition.
  - rewrite in_app_iff, DictFacts.In_keys_set, Hkeys. simpl. intuition.
  - intros name' g'. destruct (eq_dec name name') as [<-|Hne].
    + rewrite DictFacts.get_set_same. now intros [= <-].
    + rewrite DictFacts.get_set_other by exact Hne. apply Hget.
Qed.

Lemma emits_font_holds fid tt_font cmap_reversed units family style names :
  (in_list fid ["extruder"] = true ->
   forall table name, P [EvExtract table name]) ->
  forall done ufo,
    font_holds cmap_reversed units family style done ufo ->
    emits P (font_holds cmap_reversed units family style (done ++ names))
          (for_each names (build_glyph env fid tt_font cmap_reversed) ufo).
Proof.
  intros Hp. induction names as [|n names IH]; intros done ufo Hufo; simpl.
  - rule emits_ret. now rewrite app_nil_r.
  - eapply emits_bind; [exact _ | apply emits_build_glyph; auto |].
    cbv beta. intros ufo' [g [-> Hg]].
    replace (done ++ n :: names) with ((done ++ [n]) ++ names)
      by now rewrite <- app_assoc.
    apply IH. apply font_holds_put; [exact Hufo|].
    destruct (in_list fid ["extruder"]).
    + destruct Hg as (w & o & _ & _ & ->). reflexivity.
    + now subst g.
Qed.

End MinimalFont.

Lemma process_font_hands_on_minimal_font env fid request dl :
  emits (Forall (hands_on_minimal_font env request dl)) (fun _ => True)
        (process_font env fid request dl).
Proof.
  apply emits_process_font; try exact _;
    try solve [intros; repeat constructor].
  intros tt_font selected components _ Htt Hsel Hcomp.
  eapply emits_bind; [exact _ | |].
  - unfold assemble.
    apply (emits_font_holds env _ fid tt_font
             (reverse_cmap (tt_best_cmap tt_font))
             (Some (tt_unitsPerEm tt_font))
             (if dl then tt_familyName tt_font else None)
             (if dl then tt_subFamilyName tt_font else None)
             (closed_selection selected components)) with (done := []).
    + intros; repeat constructor.
    + unfold font_holds. simpl. repeat split; try tauto; try constructor.
      discriminate.
  - cbv beta. simpl app. intros ufo (Hu & Hf & Hs & Hk & Hnd & Hkeys & Hget).
    assert (Hmin : minimal_font env request dl ufo).
    { exists tt_font, selected, components. repeat split; try assumption.
      - apply Hkeys.
      - apply Hkeys. }
    apply emits_dispatch; intros _; repeat split; intros; exact Hmin.
Qed.

(** X7: the font a filter works on carries the units per em of the source font,
    the family and style names of the source font in download mode and none
    in preview mode, and, as it leaves the glyph loop, no kerning. *)
Theorem minimal_font_identity env fid request dl r log ufo :
  run (process_font env fid request dl) = (r, log) ->
  (exists names n, In (EvRasterize ufo names n) log
                   \/ In (EvRotorize ufo names n) log)
  \/ In (EvExtractInfo ufo) log ->
  exists tt_font,
    parse_font env (uploaded_bytes request) = inr tt_font
    /\ unitsPerEm ufo = Some (tt_unitsPerEm tt_font)
    /\ familyName ufo = (if dl then tt_familyName tt_font else None)
    /\ styleName ufo = (if dl then tt_subFamilyName tt_font else None)
    /\ kerning ufo = [].
Proof.
  intros Hrun Hin.
  destruct (process_font_hands_on_minimal_font env fid request dl _ _ _ Hrun)
    as [added [-> [Hall _]]].
  rewrite Forall_forall in Hall. simpl in Hin.
  assert (Hmin : minimal_font env request dl ufo).
  { destruct Hin as [(names & n & [Hin|Hin])|Hin]; exact (Hall _ Hin). }
  destruct Hmin as (tt_font & selected & components & Htt & _ & _ & Hu & Hf
                    & Hs & Hk & _).
  exists tt_font. auto.
Qed.

Lemma minimal_font_identity_witness :
  exists r log ufo tt_font,
    run (process_font Demo.env "rotorizer" Demo.bare_request true) = (r, log)
    /\ In (EvRotorize ufo [Some "A"; Some "B"; Some "a"] 200) log
    /\ parse_font Demo.env (uploaded_bytes Demo.bare_request) = inr tt_font
    /\ unitsPerEm ufo = Some (tt_unitsPerEm tt_font)
    /\ familyName ufo = tt_familyName tt_font
    /\ styleName ufo = tt_subFamilyName tt_font
    /\ kerning ufo = [].
Proof.
  eexists _, _, _.
  assert (Hrun : run (process_font Demo.env "rotorizer" Demo.bare_request true)
                 = (_, _)) by (vm_compute; reflexivity).
  match type of Hrun with
  | _ = (_, ?log) =>
      assert (Hin : In (EvRotorize _ [Some "A"; Some "B"; Some "a"] 200) log)
        by (do 2 right; left; reflexivity)
  end.
  destruct (minimal_font_identity _ _ _ _ _ _ _ Hrun
              (or_introl (ex_intro _ _ (ex_intro _ _ (or_intror Hin)))))
    as (tt_font & H).
  exists tt_font. split; [exact Hrun|]. split; [exact Hin | exact H].
Defined.

(** X8: the font a filter works on holds one glyph for each distinct name of
    the closed selection and no other glyph, and each glyph has the Unicode
    value the reverse character map gives its name (none for a name the
    character map does not reach). *)
Theorem minimal_font_glyphs env fid request dl r log ufo :
  run (process_font env fid request dl) = (r, log) ->
  (exists names n, In (EvRasterize ufo names n) log
                   \/ In (EvRotorize ufo names n) log)
  \/ In (EvExtractInfo ufo) log ->
  exists tt_font selected components,
    parse_font env (uploaded_bytes request) = inr tt_font
    /\ initial_selection dl (tt_best_cmap tt_font)
         (Dict.get (form request) "preview_string") = inr selected
    /\ get_components_in_subsetted_text env tt_font selected = inr components
    /\ NoDup (Dict.keys (glyphs ufo))
    /\ (forall name,
          In name (Dict.keys (glyphs ufo))
          <-> In name (closed_selection selected components))
    /\ forall name g,
        Dict.get (glyphs ufo) name = Some g ->
        g_unicode g = unicode_of (reverse_cmap (tt_best_cmap tt_font)) name.
Proof.
  intros Hrun Hin.
  destruct (process_font_hands_on_minimal_font env fid request dl _ _ _ Hrun)
    as [added [-> [Hall _]]].
  rewrite Forall_forall in Hall. simpl in Hin.
  assert (Hmin : minimal_font env request dl ufo).
  { destruct Hin as [(names & n & [Hin|Hin])|Hin]; exact (Hall _ Hin). }
  destruct Hmin as (tt_font & selected & components & Htt & Hsel & Hcomp & _
                    & _ & _ & _ & Hnd & Hkeys & Hget).
  exists tt_font, selected, components. auto 10.
Qed.

Lemma minimal_font_glyphs_witness :
  exists r log ufo names tt_font selected components,
    run (process_font Demo.env "rasterizer" (Demo.request [193; 65; 193])
                      false) = (r, log)
    /\ In (EvRasterize ufo names 30) log
    /\ List.length names = 4%nat
    /\ List.length (Dict.keys (glyphs ufo)) = 3%nat
    /\ parse_font Demo.env (uploaded_bytes (Demo.request [193; 65; 193]))
       = inr tt_font
    /\ initial_selection false (tt_best_cmap tt_font)
         (Dict.get (form (Demo.request [193; 65; 193])) "preview_string")
       = inr selected
    /\ get_components_in_subsetted_text Demo.env tt_font selected
       = inr components
    /\ NoDup (Dict.keys (glyphs ufo))
    /\ (forall name,
          In name (Dict.keys (glyphs ufo))
          <-> In name (closed_selection selected components))
    /\ forall name g,
        Dict.get (glyphs ufo) name = Some g ->
        g_unicode g = unicode_of (reverse_cmap (tt_best_cmap tt_font)) name.
Proof.
  eexists _, _, _, _.
  assert (Hrun : run (process_font Demo.env "rasterizer"
                        (Demo.request [193; 65; 193]) false) = (_, _))
    by (vm_compute; reflexivity).
  match type of Hrun with
  | _ = (_, ?log) =>
      assert (Hin : In (EvRasterize _ _ 30) log)
        by (do 2 right; left; reflexivity)
  end.
  destruct (minimal_font_glyphs _ _ _ _ _ _ _ Hrun
              (or_introl (ex_intro _ _ (ex_intro _ _ (or_introl Hin)))))
    as (tt_font & selected & components & H).
  exists tt_font, selected, components.
  split; [exact Hrun|]. split; [exact Hin|].
  split; [reflexivity|]. split; [reflexivity | exact H].
Defined.

(** ** The numeric parameter of a filter *)

Section Parameters.
Variable env : Collaborators.

Lemma emits_form_value (P : list event -> Prop) `{Pieces P} request key
      default :
  emits P (form_value env request key default)
        (form_int env request key default).
Proof.
  unfold form_int, form_value. destruct (Dict.get (form request) key).
  - rule emits_lift. auto.
  - now rule emits_ret.
Qed.

Lemma dispatch_parameter_from_form fid request bytes tt_font cmap
      cmap_reversed ps names ufo :
  emits (Forall (parameter_from_form env request)) (fun _ => True)
        (dispatch env fid request bytes tt_font cmap cmap_reversed ps names ufo).
Proof.
  unfold dispatch.
  destruct (fid =? "rasterizer")%string.
  { bind_with (form_value env request "resolution" 30);
      [apply emits_form_value; exact _|].
    intros n Hn. bind_any; [|intros; now rule emits_ret].
    rule emits_call; [|auto]. repeat constructor. exact Hn. }
  destruct (fid =? "rotorizer")%string.
  { bind_with (form_value env request "depth" 200);
      [apply emits_form_value; exact _|].
    intros n Hn. rule emits_call; [|auto]. repeat constructor. exact Hn. }
  destruct (fid =? "extruder")%string; [|now rule emits_raise].
  bind_with (form_value env request "angle" 330);
    [apply emits_form_value; exact _|].
  intros n Hn.
  bind_any; [rule emits_call; [repeat constructor | auto]|]. intros ufo1 _.
  bind_any; [rule emits_call; [repeat constructor | auto]|]. intros kern _.
  bind_any; [|intros; now rule emits_ret].
  rule emits_call; [|auto]. repeat constructor. exact Hn.
Qed.

Lemma process_font_parameter_from_form fid request dl :
  emits (Forall (parameter_from_form env request)) (fun _ => True)
        (process_font env fid request dl).
Proof.
  apply emits_process_font; try exact _;
    try solve [intros; repeat constructor].
  intros tt_font selected components _ _ _ _.
  eapply emits_bind; [exact _ | apply emits_assemble; [exact _|] |].
  - intros; repeat constructor.
  - intros ufo _. apply dispatch_parameter_from_form.
Qed.

End Parameters.

(** X9: a filter is called with the integer read from its form field
    ([resolution], [depth], [angle]) when the field was sent, and with 30,
    200 or 330 when it was not; when [int] fails on the field the filter is
    not called. *)
Theorem filter_parameter_from_form_or_default env fid request dl r log
        ufo names n :
  run (process_font env fid request dl) = (r, log) ->
  (In (EvRasterize ufo names n) log ->
   match Dict.get (form request) "resolution" with
   | Some value => py_int env value = inr n
   | None => n = 30
   end)
  /\ (In (EvRotorize ufo names n) log ->
      match Dict.get (form request) "depth" with
      | Some value => py_int env value = inr n
      | None => n = 200
      end)
  /\ (In (EvExtrude ufo names n) log ->
      match Dict.get (form request) "angle" with
      | Some value => py_int env value = inr n
      | None => n = 330
      end).
Proof.
  intros Hrun.
  destruct (process_font_parameter_from_form env fid request dl _ _ _ Hrun)
    as [added [-> [Hall _]]].
  rewrite Forall_forall in Hall. simpl.
  repeat split; intros Hin; exact (Hall _ Hin).
Qed.

Lemma filter_parameter_from_form_or_default_witness :
  exists r log ufo names,
    run (process_font Demo.env "rasterizer"
           (Demo.request_with [65] [("resolution", ustr_of "50")]) false)
    = (r, log)
    /\ In (EvRasterize ufo names 50) log
    /\ py_int Demo.env (ustr_of "50") = inr 50.
Proof.
  eexists _, _.
  assert (Hrun : run (process_font Demo.env "rasterizer"
                        (Demo.request_with [65] [("resolution", ustr_of "50")])
                        false) = (_, _))
    by (vm_compute; reflexivity).
  match type of Hrun with
  | _ = (_, ?log) =>
      assert (Hin : exists ufo names, In (EvRasterize ufo names 50) log)
        by (eexists _, _; do 2 right; left; reflexivity)
  end.
  destruct Hin as (ufo & names & Hin). exists ufo, names.
  destruct (filter_parameter_from_form_or_default _ _ _ _ _ _ ufo names 50 Hrun)
    as [Hras _].
  split; [exact Hrun|]. split; [exact Hin | exact (Hras Hin)].
Defined.

(** ** The order of the calls *)

Lemma FOP_app {A} (R : A -> A -> Prop) a b :
  ForallOrdPairs R a -> ForallOrdPairs R b ->
  (forall x y, In x a -> In y b -> R x y) ->
  ForallOrdPairs R (a ++ b).
Proof.
  intros Ha Hb Hab. induction Ha as [|x a Hx Ha IH]; simpl; [exact Hb|].
  constructor.
  - apply Forall_app. split; [exact Hx|].
    apply Forall_forall. intros y Hy. apply Hab; [now left | exact Hy].
  - apply IH. intros u v Hu Hv. apply Hab; [now right | exact Hv].
Qed.

Lemma FOP_after {A} (R : A -> A -> Prop) a x b :
  ForallOrdPairs R (a ++ x :: b) -> Forall (R x) b.
Proof.
  induction a as [|y a IH]; simpl; intros Hf; inversion Hf; subst; auto.
Qed.

Lemma within_nil lo hi : within lo hi [].
Proof. split; constructor. Qed.

Lemma within_single lo hi ev :
  (lo <= phase ev <= hi)%nat -> within lo hi [ev].
Proof. intros Hev. split; repeat constructor; lia. Qed.

Lemma within_app lo mid mid' hi a b :
  within lo mid a -> within mid' hi b ->
  (mid < mid')%nat -> (lo <= mid')%nat -> (mid <= hi)%nat ->
  within lo hi (a ++ b).
Proof.
  intros [Ha Hra] [Hb Hrb] Hlt Hlo Hhi.
  rewrite Forall_forall in Hra, Hrb. split.
  - apply FOP_app; [exact Ha | exact Hb |].
    intros x y Hx Hy. left. specialize (Hra x Hx). specialize (Hrb y Hy). lia.
  - apply Forall_app. split; apply Forall_forall; intros ev Hev.
    + specialize (Hra ev Hev). lia.
    + specialize (Hrb ev Hev). lia.
Qed.

Lemma within_loop k a :
  Forall (fun ev => phase ev = k /\ repeatable ev = true) a -> within k k a.
Proof.
  intros Ha. split.
  - induction Ha as [|x a [Hx Hr] Ha IH]; constructor; [|exact IH].
    apply Forall_forall. intros y Hy. rewrite Forall_forall in Ha.
    right. destruct (Ha y Hy) as [Hy' _]. split; congruence.
  - apply Forall_forall. intros ev Hev. rewrite Forall_forall in Ha.
    destruct (Ha ev Hev). lia.
Qed.

Lemma within_weaken lo hi lo' hi' a :
  within lo hi a -> (lo' <= lo)%nat -> (hi <= hi')%nat -> within lo' hi' a.
Proof.
  intros [Ha Hr] Hlo Hhi. split; [exact Ha|].
  apply Forall_forall. intros ev Hev. rewrite Forall_forall in Hr.
  specialize (Hr ev Hev). lia.
Qed.

#[export] Instance Pieces_silent : Pieces (@eq (list event) []).
Proof. split; [reflexivity | intros a b <- <-; reflexivity]. Qed.

Section Sequencing.
Context {A B : Type}.

(** One step, then the rest, each with its own property of what it adds. *)
Lemma emits_seq (P1 P2 P : list event -> Prop) (Q1 : A -> Prop)
      (Q : B -> Prop) (m : M A) (k : A -> M B) :
  emits P1 Q1 m -> (forall x, Q1 x -> emits P2 Q (k x)) ->
  (forall a, P1 a -> P a) ->
  (forall a b, P1 a -> P2 b -> P (a ++ b)) ->
  emits P Q (bind m k).
Proof.
  intros Hm Hk Hfail Happ log r log'. unfold bind.
  destruct (m log) as [[e|x] log1] eqn:Em.
  - intros [= <- <-]. destruct (Hm _ _ _ Em) as [a [-> [Hp _]]].
    exists a. repeat split; [now apply Hfail | discriminate].
  - intros Ek. destruct (Hm _ _ _ Em) as [a [-> [Hp Hq]]].
    destruct (Hk x (Hq x eq_refl) _ _ _ Ek) as [b [-> [Hp' Hq']]].
    exists (a ++ b). rewrite app_assoc. repeat split; auto.
Qed.

Lemma emits_silent_then (P : list event -> Prop) (Q1 : A -> Prop)
      (Q : B -> Prop) (m : M A) (k : A -> M B) :
  P [] -> emits (eq []) Q1 m -> (forall x, Q1 x -> emits P Q (k x)) ->
  emits P Q (bind m k).
Proof.
  intros Hnil Hm Hk.
  apply emits_seq with (P1 := eq []) (P2 := P) (Q1 := Q1); auto.
  - now intros a <-.
  - now intros a b <-.
Qed.

Lemma emits_then_silent (P : list event -> Prop) (Q1 : A -> Prop)
      (Q : B -> Prop) (m : M A) (k : A -> M B) :
  emits P Q1 m -> (forall x, Q1 x -> emits (eq []) Q (k x)) ->
  emits P Q (bind m k).
Proof.
  intros Hm Hk.
  apply emits_seq with (P1 := P) (P2 := eq []) (Q1 := Q1); auto.
  intros a b Ha <-. now rewrite app_nil_r.
Qed.

Lemma emits_within_then lo mid mid' hi (Q1 : A -> Prop) (Q : B -> Prop)
      (m : M A) (k : A -> M B) :
  (mid < mid')%nat -> (lo <= mid')%nat -> (mid <= hi)%nat ->
  emits (within lo mid) Q1 m ->
  (forall x, Q1 x -> emits (within mid' hi) Q (k x)) ->
  emits (within lo hi) Q (bind m k).
Proof.
  intros Hlt Hlo Hhi Hm Hk.
  apply emits_seq with (P1 := within lo mid) (P2 := within mid' hi) (Q1 := Q1);
    auto.
  - intros a Ha. apply (within_weaken lo mid); [exact Ha | lia | lia].
  - intros a b Ha Hb. now apply (within_app lo mid mid' hi).
Qed.

End Sequencing.

Lemma emits_mono {A} (P P' : list event -> Prop) (Q : A -> Prop) (m : M A) :
  (forall a, P a -> P' a) -> emits P Q m -> emits P' Q m.
Proof.
  intros Hpp Hm log r log' E. destruct (Hm _ _ _ E) as [a [-> [Hp Hq]]].
  exists a. auto.
Qed.

Lemma emits_call_within {A} lo hi ev (r : result A) :
  (lo <= phase ev <= hi)%nat ->
  emits (within lo hi) (fun _ => True) (call ev r).
Proof.
  intros Hev log r' log' [= <- <-]. exists [ev].
  split; [reflexivity|]. split; [now apply within_single | auto].
Qed.

Lemma emits_raise_nil {A} (P : list event -> Prop) (Q : A -> Prop) e :
  P [] -> emits P Q (raise e).
Proof.
  intros Hnil log r log' [= <- <-]. exists []. rewrite app_nil_r.
  split; [reflexivity|]. split; [exact Hnil | discriminate].
Qed.

Section Order.
Variable env : Collaborators.

Lemma dispatch_in_order fid request bytes tt_font cmap cmap_reversed ps names
      ufo :
  emits (within 3 5) (fun _ => True)
        (dispatch env fid request bytes tt_font cmap cmap_reversed ps names ufo).
Proof.
  unfold dispatch.
  destruct (fid =? "rasterizer")%string.
  { apply emits_silent_then with (Q1 := fun _ => True);
      [apply within_nil | apply emits_form_int; exact _ |].
    intros n _. apply emits_then_silent with (Q1 := fun _ => True);
      [apply emits_call_within; simpl; lia|].
    intros; now rule emits_ret. }
  destruct (fid =? "rotorizer")%string.
  { apply emits_silent_then with (Q1 := fun _ => True);
      [apply within_nil | apply emits_form_int; exact _ |].
    intros n _. apply emits_call_within. simpl. lia. }
  destruct (fid =? "extruder")%string.
  2:{ apply emits_raise_nil. apply within_nil. }
  apply emits_silent_then with (Q1 := fun _ => True);
    [apply within_nil | apply emits_form_int; exact _ |].
  intros n _.
  apply emits_within_then with (mid := 3%nat) (mid' := 4%nat)
                               (Q1 := fun _ => True); try lia;
    [apply emits_call_within; simpl; lia|].
  intros ufo1 _.
  apply emits_within_then with (mid := 4%nat) (mid' := 5%nat)
                               (Q1 := fun _ => True); try lia;
    [apply emits_call_within; simpl; lia|].
  intros kern _.
  apply emits_then_silent with (Q1 := fun _ => True);
    [apply emits_call_within; simpl; lia|].
  intros; now rule emits_ret.
Qed.

Lemma process_parsed_in_order fid request dl tt_font :
  emits (within 1 9) (fun _ => True)
        (process_parsed env fid request dl tt_font).
Proof.
  unfold process_parsed.
  apply emits_silent_then with (Q1 := fun _ => True);
    [apply within_nil | rule emits_lift; auto |].
  intros selected _.
  apply emits_within_then with (mid := 1%nat) (mid' := 2%nat)
                               (Q1 := fun _ => True); try lia;
    [apply emits_call_within; simpl; lia|].
  intros components _.
  apply emits_within_then with (mid := 2%nat) (mid' := 3%nat)
                               (Q1 := fun _ => True); try lia.
  { apply emits_mono with (P := Forall (fun ev => phase ev = 2%nat
                                                  /\ repeatable ev = true));
      [apply within_loop|].
    eapply emits_weaken; [apply emits_assemble; [exact _|] | auto].
    intros; repeat constructor. }
  intros ufo _.
  apply emits_within_then with (mid := 5%nat) (mid' := 6%nat)
                               (Q1 := fun _ => True); try lia;
    [apply dispatch_in_order|].
  intros output _.
  apply emits_silent_then with (Q1 := fun _ => True); [apply within_nil | |].
  { destruct (Dict.get suffix_name_map fid);
      [now rule emits_ret | now rule emits_raise]. }
  intros suffixes _.
  apply emits_within_then with (mid := 6%nat) (mid' := 7%nat)
                               (Q1 := fun _ => True); try lia.
  { apply emits_mono with (P := Forall (fun ev => phase ev = 6%nat
                                                  /\ repeatable ev = true));
      [apply within_loop|].
    apply emits_rename_outputs; [exact _|]. intros; repeat constructor. }
  intros renamed _.
  apply emits_within_then with (mid := 7%nat) (mid' := 8%nat)
                               (Q1 := fun _ => True); try lia.
  { apply emits_mono with (P := Forall (fun ev => phase ev = 7%nat
                                                  /\ repeatable ev = true));
      [apply within_loop|].
    apply emits_fonts_to_base64; [exact _|]. intros; repeat constructor. }
  intros encoded _.
  apply emits_within_then with (mid := 8%nat) (mid' := 9%nat)
                               (Q1 := fun _ => True); try lia;
    [apply emits_call_within; simpl; lia|].
  intros _ _.
  apply emits_then_silent with (Q1 := fun _ => True).
  { destruct renamed; [|apply emits_call_within; simpl; lia].
    apply emits_raise_nil. apply within_nil. }
  intros _ _. destruct dl; [now rule emits_ret|].
  destruct (Dict.get (form request) "preview_string");
    [now rule emits_ret | now rule emits_raise].
Qed.

Lemma process_font_within fid request dl :
  emits (within 0 9) (fun _ => True) (process_font env fid request dl).
Proof.
  unfold process_font.
  assert (Hraise : forall e, emits (within 0 9) (fun _ : Response => True)
                               (raise e)).
  { intros e. apply emits_raise_nil. apply within_nil. }
  destruct (negb (in_list fid _)); [apply Hraise|].
  destruct (negb (truthy _)); [apply Hraise|].
  destruct (too_long _); [apply Hraise|].
  apply emits_within_then with (mid := 0%nat) (mid' := 1%nat)
                               (Q1 := fun _ => True); try lia;
    [apply emits_call_within; simpl; lia|].
  intros tt_font _. apply process_parsed_in_order.
Qed.

Lemma process_font_right_filter fid request dl :
  emits (Forall (right_filter fid)) (fun _ => True)
        (process_font env fid request dl).
Proof.
  apply emits_process_font; try exact _;
    try solve [intros; repeat constructor].
  intros tt_font selected components _ _ _ _.
  eapply emits_bind; [exact _ | apply emits_assemble; [exact _|] |].
  - intros Hx table name. repeat constructor.
    now apply in_list_extruder.
  - intros ufo _.
    apply emits_dispatch; intros Hf; repeat split; intros; exact Hf.
Qed.

End Order.

Lemma later_calls_are_no_filter log :
  Forall (fun ev => (5 < phase ev)%nat) log -> filter_names log = [].
Proof.
  induction 1 as [|ev log Hev _ IH]; [reflexivity|].
  unfold filter_names in *. simpl. rewrite IH.
  destruct ev; simpl in *; try reflexivity; lia.
Qed.

Lemma in_order_one_filter log :
  in_pipeline_order log -> (List.length (filter_names log) <= 1)%nat.
Proof.
  induction 1 as [|ev log Hev _ IH]; [simpl; lia|].
  assert (Hcases : filter_names (ev :: log) = filter_names log
                   \/ (phase ev = 5%nat /\ repeatable ev = false
                       /\ exists names, filter_names (ev :: log)
                                        = names :: filter_names log)).
  { destruct ev; simpl; auto; right; repeat split; eauto. }
  destruct Hcases as [->|(Hp & Hr & names & ->)]; [exact IH|].
  rewrite later_calls_are_no_filter; [simpl; lia|].
  apply Forall_forall. intros later Hl. rewrite Forall_forall in Hev.
  destruct (Hev later Hl) as [Hlt|[_ Hrep]]; [lia | congruence].
Qed.

(** X10: the outside calls of a request come in the order of the lines that
    make them: parse, closure helper, outline extractors, then
    [extractOpenTypeInfo], kerning extraction and the filter, then the
    renames, the encodings, [collect] and [save]; only the extractor, rename
    and encoding calls, made in loops, occur more than once. *)
Theorem calls_come_in_pipeline_order env fid request dl r log :
  run (process_font env fid request dl) = (r, log) ->
  in_pipeline_order log.
Proof.
  intros Hrun.
  destruct (process_font_within env fid request dl _ _ _ Hrun)
    as [added [Hlog [[Hord _] _]]].
  simpl in Hlog. now subst added.
Qed.

Lemma calls_come_in_pipeline_order_witness :
  exists r log,
    run (process_font Demo.env "extruder" (Demo.request [65; 66]) false)
    = (r, log)
    /\ map phase log = [0; 1; 2; 2; 3; 4; 5; 6; 7; 8; 9]%nat
    /\ in_pipeline_order log.
Proof.
  eexists _, _.
  assert (Hrun : run (process_font Demo.env "extruder" (Demo.request [65; 66])
                                   false) = (_, _))
    by (vm_compute; reflexivity).
  split; [exact Hrun|]. split; [reflexivity|].
  exact (calls_come_in_pipeline_order _ _ _ _ _ _ Hrun).
Defined.

(** X11: a request calls at most one filter, the one its identifier names; the
    outline extractors, [extractOpenTypeInfo] and the kerning extraction are
    called for the extruder only; and nothing is called after [save]. *)
Theorem one_filter_call_of_the_named_kind env fid request dl r log :
  run (process_font env fid request dl) = (r, log) ->
  (List.length (filter_names log) <= 1)%nat
  /\ Forall (right_filter fid) log
  /\ forall before font path after,
      log = before ++ EvSave font path :: after -> after = [].
Proof.
  intros Hrun.
  assert (Hord : in_pipeline_order log).
  { destruct (process_font_within env fid request dl _ _ _ Hrun)
      as [added [Hlog [[Hord _] _]]].
    simpl in Hlog. now subst added. }
  split; [now apply in_order_one_filter|]. split.
  - destruct (process_font_right_filter env fid request dl _ _ _ Hrun)
      as [added [-> [Hall _]]]. exact Hall.
  - intros before font path after ->. apply FOP_after in Hord.
    destruct after as [|ev after]; [reflexivity|].
    inversion Hord as [|? ? Hev _]; subst.
    destruct Hev as [Hlt|[_ Hrep]]; [|discriminate].
    simpl in Hlt. destruct ev; simpl in Hlt; lia.
Qed.

Lemma one_filter_call_of_the_named_kind_witness :
  exists r log,
    run (process_font Demo.env "rotorizer" (Demo.request [65]) false) = (r, log)
    /\ List.length (filter_names log) = 1%nat
    /\ Forall (right_filter "rotorizer") log
    /\ forall before font path after,
        log = before ++ EvSave font path :: after -> after = [].
Proof.
  eexists _, _.
  assert (Hrun : run (process_font Demo.env "rotorizer" (Demo.request [65])
                                   false) = (_, _))
    by (vm_compute; reflexivity).
  destruct (one_filter_call_of_the_named_kind _ _ _ _ _ _ Hrun)
    as (_ & Hkind & Hlast).
  split; [exact Hrun|]. split; [reflexivity|]. split; assumption.
Defined.

(** ** Download requests and the preview string *)

(** X12: for the rasterizer and the rotorizer a download request is answered
    the same, call for call, whatever preview string comes with it, as long
    as the string passes the length check: two requests that differ in that
    field only have the same outcome and the same log. *)
Theorem download_ignores_preview_string env fid request1 request2 :
  fid = "rasterizer" \/ fid = "rotorizer" ->
  files request1 = files request2 ->
  (forall key, key <> "preview_string" ->
               Dict.get (form request1) key = Dict.get (form request2) key) ->
  too_long (Dict.get (form request1) "preview_string") = false ->
  too_long (Dict.get (form request2) "preview_string") = false ->
  run (process_font env fid request1 true)
  = run (process_font env fid request2 true).
Proof.
  intros Hfid Hfiles Hform Hl1 Hl2.
  assert (Hb : uploaded_bytes request1 = uploaded_bytes request2)
    by (unfold uploaded_bytes; now rewrite Hfiles).
  assert (Hparsed : forall tt_font log,
             process_parsed env fid request1 true tt_font log
             = process_parsed env fid request2 true tt_font log).
  { intros tt_font log. unfold process_parsed, initial_selection.
    rewrite Hb.
    destruct Hfid as [-> | ->]; unfold dispatch, form_int.
    - change (("rasterizer" =? "rasterizer")%string) with true. cbv iota.
      rewrite (Hform "resolution") by discriminate. reflexivity.
    - change (("rotorizer" =? "rasterizer")%string) with false.
      change (("rotorizer" =? "rotorizer")%string) with true. cbv iota.
      rewrite (Hform "depth") by discriminate. reflexivity. }
  unfold run, process_font. rewrite Hfiles, Hl1, Hl2, Hb.
  destruct (negb (in_list fid _)); [reflexivity|].
  destruct (negb (truthy _)); [reflexivity|].
  unfold bind, call.
  destruct (parse_font env (uploaded_bytes request2)); [reflexivity|].
  apply Hparsed.
Qed.

Lemma download_ignores_preview_string_witness :
  run (process_font Demo.env "rotorizer" (Demo.request [65; Demo.euro]) true)
  = run (process_font Demo.env "rotorizer" Demo.bare_request true).
Proof.
  apply download_ignores_preview_string; try reflexivity.
  - now right.
  - intros key Hkey. simpl.
    destruct (eq_dec key "preview_string"); [contradiction | reflexivity].
Defined.

(** ** The routes *)

(** X13: each route returns what [process_font] returned, a body of fonts alone
    for the download route and one with warnings and the echoed string for
    the preview route, after one more [collect]; an exception of
    [process_font] passes through the route with no further call. *)
Theorem routes_pass_on_process_font env fid request (dl : bool) r log :
  run ((if dl then filter_download else filter_preview) env fid request)
  = (r, log) ->
  match r with
  | inr response =>
      exists log0,
        run (process_font env fid request dl) = (inr response, log0)
        /\ log = log0 ++ [EvCollect]
        /\ if dl then exists fonts, response = DownloadResponse fonts
           else exists fonts warnings echoed,
               response = PreviewResponse fonts warnings echoed
  | inl e => run (process_font env fid request dl) = (inl e, log)
  end.
Proof.
  intros Hrun.
  assert (Hroute : bind (process_font env fid request dl)
                     (fun return_value =>
                        bind (call EvCollect (inr tt))
                             (fun _ => ret return_value)) []
                   = (r, log))
    by (destruct dl; exact Hrun).
  clear Hrun. unfold bind, call, ret in Hroute. unfold run.
  destruct (process_font env fid request dl []) as [[e|response] log0] eqn:E.
  - now injection Hroute as <- <-.
  - injection Hroute as <- <-. exists log0.
    split; [reflexivity|]. split; [reflexivity|].
    apply process_font_inr in E.
    destruct E as (tt_font & selected & components & ufo & output & suffixes
                   & output' & encoded & log1 & log2 & log3 & log4 & first
                   & H).
    cbv zeta in H.
    destruct H as (_ & _ & _ & _ & _ & _ & _ & _ & _ & _ & _ & _ & Hresp).
    destruct dl; [eauto|]. destruct Hresp as (s & _ & ->). eauto.
Qed.

Lemma routes_pass_on_process_font_witness :
  exists response log log0 fonts,
    run (filter_download Demo.env "extruder" Demo.bare_request)
    = (inr response, log)
    /\ run (process_font Demo.env "extruder" Demo.bare_request true)
       = (inr response, log0)
    /\ log = log0 ++ [EvCollect]
    /\ response = DownloadResponse fonts.
Proof.
  eexists _, _.
  assert (Hrun : run (filter_download Demo.env "extruder" Demo.bare_request)
                 = (inr _, _)) by (vm_compute; reflexivity).
  pose proof (routes_pass_on_process_font Demo.env "extruder"
                Demo.bare_request true _ _ Hrun) as H.
  cbv beta iota in H. destruct H as (log0 & H0 & Hlog & fonts & Hresp).
  exists log0, fonts. split; [exact Hrun|]. auto.
Defined.
